(** * ImageWorker: the lazy-enrichment funnel of [src/index.js]

    A shallow embedding of the worker's request handlers and of the alt-text
    sanitiser, with the properties of the design document stated over it.

    - JavaScript strings are lists of UTF-16 code units ([list N]).
    - The worker's bindings (Cache API, D1, R2, KV, Workers AI, outbound
      [fetch], the clock) are calls of a small free monad; a handler is a
      program over these calls, written in the order of its [await]s.
    - A world holds the stores; an oracle fixes what the environment decides
      (which call rejects, what the clock and the vision model answer). *)

From Stdlib Require Import NArith Ascii String DecimalN.
From stdpp Require Import base decidable option list gmap.

Set Warnings "-register-all".
Local Open Scope N_scope.

(** ** JavaScript strings *)

Abbreviation JsString := (list N).

(** The code units of an ASCII literal. *)
Definition js (s : string) : JsString :=
  (fun a => N_of_ascii a) <$> list_ascii_of_string s.

(** [WhiteSpace] and [LineTerminator] of ECMAScript, what [trim] removes. *)
Definition is_ws (c : N) : bool :=
  bool_decide (c ∈ [9; 10; 11; 12; 13; 32; 160; 5760; 8232; 8233; 8239; 8287; 12288; 65279])
  || ((8192 <=? c) && (c <=? 8202)).

Fixpoint trimStart (s : JsString) : JsString :=
  match s with
  | [] => []
  | c :: r => if is_ws c then trimStart r else s
  end.

Definition trimEnd (s : JsString) : JsString := rev (trimStart (rev s)).

(** [String.prototype.trim] *)
Definition trim (s : JsString) : JsString := trimEnd (trimStart s).

(** [s.startsWith(p)] *)
Fixpoint startsWith (p s : JsString) : bool :=
  match p, s with
  | [], _ => true
  | a :: p', b :: s' => (a =? b) && startsWith p' s'
  | _ :: _, [] => false
  end.

(** [x ?? d] *)
Definition nullish {A : Type} (x : option A) (d : A) : A :=
  match x with
  | Some a => a
  | None => d
  end.
Infix "??" := nullish (at level 45, left associativity).

(** Truthiness of a string value that may be [null] or [undefined]. *)
Definition truthy (s : option JsString) : bool :=
  match s with
  | Some (_ :: _) => true
  | _ => false
  end.

(** ** Constants *)

Definition MAX_IMAGE_BYTES : N := 10 * 1024 * 1024.
Definition RATE_LIMIT_MAX : N := 10.
Definition RATE_LIMIT_TTL : N := 75.
Definition AI_DEDUPE_TTL : N := 300.
Definition CACHE_MAX_AGE : JsString := js "3600".
Definition CACHE_PENDING_AGE : JsString := js "60".
Definition ALT_TEXT_MAX_LEN : nat := 500.
Definition ALLOWED_TYPES : list JsString :=
  [js "image/jpeg"; js "image/png"; js "image/gif"; js "image/webp"; js "image/avif"].

(** ** Alt-text sanitisation *)

Module Sanitiser.

Definition amp : N := 38.
Definition lt : N := 60.
Definition gt : N := 62.
Definition quot : N := 34.
Definition apos : N := 39.
Definition backtick : N := 96.

(** [.replace(/<[^>]*>/g, '')]: scanning from the left, a [<] that has a
    [>] somewhere after it starts a match, which runs to the first such
    [>]; a [<] with no [>] after it stays.  [strip] scans outside a tag,
    [skip] scans inside one. *)
Definition has_gt (s : JsString) : bool := existsb (N.eqb gt) s.

Fixpoint strip (s : JsString) : JsString :=
  match s with
  | [] => []
  | c :: r =>
      if (c =? lt) && has_gt r then skip r else c :: strip r
  end
with skip (s : JsString) : JsString :=
  match s with
  | [] => []
  | c :: r => if c =? gt then strip r else skip r
  end.

(** [HTML_ESCAPE_MAP] *)
Definition HTML_ESCAPE_MAP (c : N) : option JsString :=
  if c =? amp then Some (js "&amp;")
  else if c =? lt then Some (js "&lt;")
  else if c =? gt then Some (js "&gt;")
  else if c =? quot then Some (js "&quot;")
  else if c =? apos then Some (js "&#39;")
  else if c =? backtick then Some (js "&#96;")
  else None.

(** The second [.replace]: each of the six characters of the map is
    replaced by its entity. *)
Definition escape (s : JsString) : JsString :=
  c ← s; HTML_ESCAPE_MAP c ?? [c].

(** The five characters that are escaped and occur in no entity. *)
Definition markup (c : N) : bool :=
  (c =? lt) || (c =? gt) || (c =? quot) || (c =? apos) || (c =? backtick).

(** [sanitiseAltText]; [String(raw ?? '')] is the identity on strings. *)
Definition sanitiseAltText (raw : JsString) : JsString :=
  take ALT_TEXT_MAX_LEN (escape (strip (trim raw))).

End Sanitiser.

Import Sanitiser.

(** ** Numbers as text

    [String(n)] of a non-negative integer and [Number(s)] of a string.
    [Number] is exact on strings of decimal digits, the only values the
    worker ever stores and reads back; the empty string is [0], as in
    JavaScript.  Any other string is read as [NaN] ([None]); the other
    numeric literal forms of JavaScript (exponents, hexadecimal, signs, a
    fraction, surrounding white space) are never written by this code and are
    not modelled. *)

Fixpoint uint_codes (d : Decimal.uint) : JsString :=
  match d with
  | Decimal.Nil => []
  | Decimal.D0 d => 48 :: uint_codes d
  | Decimal.D1 d => 49 :: uint_codes d
  | Decimal.D2 d => 50 :: uint_codes d
  | Decimal.D3 d => 51 :: uint_codes d
  | Decimal.D4 d => 52 :: uint_codes d
  | Decimal.D5 d => 53 :: uint_codes d
  | Decimal.D6 d => 54 :: uint_codes d
  | Decimal.D7 d => 55 :: uint_codes d
  | Decimal.D8 d => 56 :: uint_codes d
  | Decimal.D9 d => 57 :: uint_codes d
  end.

Definition digit_cons (c : N) (d : Decimal.uint) : option Decimal.uint :=
  if c =? 48 then Some (Decimal.D0 d)
  else if c =? 49 then Some (Decimal.D1 d)
  else if c =? 50 then Some (Decimal.D2 d)
  else if c =? 51 then Some (Decimal.D3 d)
  else if c =? 52 then Some (Decimal.D4 d)
  else if c =? 53 then Some (Decimal.D5 d)
  else if c =? 54 then Some (Decimal.D6 d)
  else if c =? 55 then Some (Decimal.D7 d)
  else if c =? 56 then Some (Decimal.D8 d)
  else if c =? 57 then Some (Decimal.D9 d)
  else None.

Fixpoint codes_uint (s : JsString) : option Decimal.uint :=
  match s with
  | [] => Some Decimal.Nil
  | c :: r => match codes_uint r with
              | Some d => digit_cons c d
              | None => None
              end
  end.

(** [String(n)] *)
Definition String_of (n : N) : JsString := uint_codes (N.to_uint n).

(** [Number(s)]; [None] is [NaN]. *)
Definition Number (s : JsString) : option N := N.of_uint <$> codes_uint s.

(** [String(x)] of a number that may be [NaN]. *)
Definition String_of_num (x : option N) : JsString :=
  match x with
  | Some n => String_of n
  | None => js "NaN"
  end.

(** ** HTTP values *)

Inductive Json :=
| JStr (s : JsString)
| JNum (n : N)
| JArr (l : list Json)
| JObj (members : list (JsString * Json)).

Inductive Body :=
| BodyNull
| BodyBytes (b : list N)
| BodyText (s : JsString)
| BodyJson (j : Json).

(** A [Response]: status, header map and body.  As in a [Headers] object
    the names are kept in lower case and a name has one value. *)
Record Response := mkResponse {
  status : N;
  headers : gmap JsString JsString;
  body : Body
}.

(** What the handlers read of a [Request].  [pathname] is
    [new URL(request.url).pathname]; [json] is [await request.json()]:
    [None] when it throws, otherwise the [url] member of the body
    ([body?.url], [None] when missing or [null]); a [url] member that is not a
    string is outside the model. *)
Record Request := mkRequest {
  method : JsString;
  url : JsString;
  pathname : JsString;
  cf_connecting_ip : option JsString;
  authorization : option JsString;
  json : option (option JsString)
}.

(** The bindings of [env] the code tests for presence. *)
Record Env := mkEnv {
  RATE_LIMIT : bool;
  AI_QUOTA : bool;
  ADMIN_TOKEN : option JsString
}.

Definition h_content_type : JsString := js "content-type".
Definition h_x_alt_text : JsString := js "x-alt-text".
Definition h_cache_control : JsString := js "cache-control".
Definition h_x_image_id : JsString := js "x-image-id".
Definition h_allow : JsString := js "allow".
Definition h_retry_after : JsString := js "retry-after".
Definition h_www_authenticate : JsString := js "www-authenticate".
Definition h_acao : JsString := js "access-control-allow-origin".
Definition h_acam : JsString := js "access-control-allow-methods".
Definition h_acah : JsString := js "access-control-allow-headers".
Definition h_aceh : JsString := js "access-control-expose-headers".

Definition EXPOSED : JsString :=
  js "X-Alt-Text, X-Image-Id, CF-Cache-Status, Cache-Control".

(** [CORS_HEADERS], as the list of its entries. *)
Definition CORS_HEADERS : list (JsString * JsString) :=
  [ (h_acao, js "*");
    (h_acam, js "GET, POST, OPTIONS");
    (h_acah, js "Authorization, Content-Type");
    (h_aceh, EXPOSED) ].

(** [headers.set(k, v)] for each entry of [l], in order. *)
Definition set_all (l : list (JsString * JsString))
    (h : gmap JsString JsString) : gmap JsString JsString :=
  fold_left (fun m kv => <[kv.1 := kv.2]> m) l h.

(** [withCors] *)
Definition withCors (r : Response) : Response :=
  mkResponse (status r) (set_all CORS_HEADERS (headers r)) (body r).

(** [jsonError] *)
Definition jsonError (message : JsString) (st : N) : Response :=
  mkResponse st {[ h_content_type := js "application/json" ]}
             (BodyJson (JObj [(js "error", JStr message)])).

Definition methodNotAllowed (allowed : JsString) : Response :=
  mkResponse 405 {[ h_allow := allowed ]} (BodyText (js "Method Not Allowed")).

(** ** The stores *)

(** An R2 object: body, [httpMetadata.contentType] and the
    [customMetadata] of the upload (source URL, upload instant). *)
Record Blob := mkBlob {
  bytes : list N;
  contentType : option JsString;
  customMetadata : option (JsString * N)
}.

(** A row of the [images] table of schema.sql. *)
Record Row := mkRow {
  id : JsString;
  source_url : option JsString;
  alt_text : option JsString;
  created_at : option N;
  updated_at : option N
}.

Inductive Namespace := RATE_LIMIT_ns | AI_QUOTA_ns.

(** A settled promise. *)
Inductive Settled (A : Type) :=
| Fulfilled (a : A)
| Rejected (reason : JsString).
Arguments Fulfilled {A} a.
Arguments Rejected {A} reason.

(** The response of the outbound [fetch] of the upload. *)
Record Fetched := mkFetched {
  f_status : N;
  f_content_type : option JsString;
  f_payload : list N
}.

(** ** Calls to the platform

    One constructor per operation the handlers await (or start), with the
    arguments the code passes. *)
Inductive Call :=
| CacheMatch (key : JsString)
| CachePut (key : JsString) (r : Response)
| DbSelectAlt (image : JsString)
| DbSelectId (source : JsString)
| DbInsert (image source : JsString)
| DbUpsertAlt (image alt : JsString)
| R2Get (image : JsString)
| R2Put (image : JsString) (data : list N) (mime source : JsString)
| R2Delete (image : JsString)
| KvGet (ns : Namespace) (key : JsString)
| KvPut (ns : Namespace) (key value : JsString) (ttl : N)
| AiRun (image : list N)
| Fetch (source : JsString)
| RandomUUID
| DateNow
| Console (msg : JsString).

(** What each call resolves to.  The calls the code wraps in no [try] and
    that the platform documents as not rejecting in normal operation (Cache
    API, clock, UUID, console) answer directly. *)
Definition Answer (c : Call) : Type :=
  match c with
  | CacheMatch _ => option Response
  | CachePut _ _ => unit
  | DbSelectAlt _ => Settled (option (option JsString))
  | DbSelectId _ => Settled (option JsString)
  | DbInsert _ _ => Settled unit
  | DbUpsertAlt _ _ => Settled unit
  | R2Get _ => Settled (option Blob)
  | R2Put _ _ _ _ => Settled unit
  | R2Delete _ => Settled unit
  | KvGet _ _ => Settled (option JsString)
  | KvPut _ _ _ _ => Settled unit
  | AiRun _ => Settled (option JsString)
  | Fetch _ => Settled Fetched
  | RandomUUID => JsString
  | DateNow => N
  | Console _ => unit
  end.

(** A program: the calls of an [async] function in the order it awaits
    them, each continued on its answer.  A call is one step: it is issued and
    settles at once; programs interleave between calls. *)
Inductive Prog (A : Type) : Type :=
| Ret (a : A)
| Vis (c : Call) (k : Answer c -> Prog A).
Arguments Ret {A} a.
Arguments Vis {A} c k.

Fixpoint bind {A B : Type} (p : Prog A) (f : A -> Prog B) : Prog B :=
  match p with
  | Ret a => f a
  | Vis c k => Vis c (fun x => bind (k x) f)
  end.

Definition call (c : Call) : Prog (Answer c) := Vis c Ret.

Declare Scope prog_scope.
Delimit Scope prog_scope with prog.
Notation "'let*' x ':=' p 'in' q" := (bind p (fun x => q))
  (at level 10, x name, p at level 100, q at level 200) : prog_scope.
Notation "p ';;' q" := (bind p (fun _ => q))
  (at level 100, q at level 200, right associativity) : prog_scope.

(** What a handler hands back: the response, and the promises it leaves
    running ([ctx.waitUntil], or a promise it does not await). *)
Record Reply := mkReply {
  response : Response;
  background : list (Prog unit)
}.

Definition reply (r : Response) : Prog Reply := Ret (mkReply r []).

(** ** Worlds and oracles *)

(** An event of the history: the call and whether it was fulfilled. *)
Abbreviation Event := (Call * bool)%type.

(** The state of the collaborators.  A KV entry carries the instant (ms) at
    which it expires.  The Cache API is a map from request URL to response:
    an entry stays until it is overwritten (its natural expiry, which only
    removes entries, is the edge's and is not modelled).  [log] is the
    history of calls, latest first. *)
Record World := mkWorld {
  cache : gmap JsString Response;
  images : list Row;
  bucket : gmap JsString Blob;
  rate_limit_kv : gmap JsString (JsString * N);
  ai_quota_kv : gmap JsString (JsString * N);
  log : list Event
}.

(** What the environment decides, per position in the history: whether the
    call issued there is rejected and with which message, the wall clock
    (ms), the [response] member of the vision model's result ([None] when
    missing), the response of the remote server, the UUID drawn. *)
Record Oracle := mkOracle {
  rejects : nat -> bool;
  reason : nat -> JsString;
  clock : nat -> N;
  vision : nat -> option JsString;
  remote : nat -> JsString -> Fetched;
  uuid : nat -> JsString
}.

Definition kv_of (ns : Namespace) (w : World) : gmap JsString (JsString * N) :=
  match ns with
  | RATE_LIMIT_ns => rate_limit_kv w
  | AI_QUOTA_ns => ai_quota_kv w
  end.

Definition record (e : Event) (w : World) : World :=
  mkWorld (cache w) (images w) (bucket w) (rate_limit_kv w) (ai_quota_kv w)
          (e :: log w).

Definition with_cache (c : gmap JsString Response) (w : World) : World :=
  mkWorld c (images w) (bucket w) (rate_limit_kv w) (ai_quota_kv w) (log w).

Definition with_images (t : list Row) (w : World) : World :=
  mkWorld (cache w) t (bucket w) (rate_limit_kv w) (ai_quota_kv w) (log w).

Definition with_bucket (b : gmap JsString Blob) (w : World) : World :=
  mkWorld (cache w) (images w) b (rate_limit_kv w) (ai_quota_kv w) (log w).

Definition with_kv (ns : Namespace) (m : gmap JsString (JsString * N))
    (w : World) : World :=
  match ns with
  | RATE_LIMIT_ns =>
      mkWorld (cache w) (images w) (bucket w) m (ai_quota_kv w) (log w)
  | AI_QUOTA_ns =>
      mkWorld (cache w) (images w) (bucket w) (rate_limit_kv w) m (log w)
  end.

(** [KV.get]: the value of a key that has not expired. *)
Definition kv_live (now : N) (m : gmap JsString (JsString * N))
    (key : JsString) : option JsString :=
  match m !! key with
  | Some (v, expiry) => if now <? expiry then Some v else None
  | None => None
  end.

(** The [images] table. *)
Definition by_id (i : JsString) (r : Row) : bool := bool_decide (id r = i).
Definition by_source (u : JsString) (r : Row) : bool :=
  bool_decide (source_url r = Some u).

(** [INSERT INTO images (id, source_url, created_at)]: the primary key and
    the UNIQUE index on [source_url] make it fail on a duplicate. *)
Definition db_insert (now : N) (i u : JsString) (t : list Row) : option (list Row) :=
  if existsb (by_id i) t || existsb (by_source u) t then None
  else Some (t ++ [mkRow i (Some u) None (Some now) None]).

(** [INSERT ... ON CONFLICT(id) DO UPDATE SET alt_text, updated_at] *)
Definition db_upsert (now : N) (i a : JsString) (t : list Row) : list Row :=
  if existsb (by_id i) t
  then (fun r => if by_id i r
                 then mkRow (id r) (source_url r) (Some a) (created_at r) (Some now)
                 else r) <$> t
  else t ++ [mkRow i None (Some a) (Some now) (Some now)].

(** Whether the answer of a call is a fulfilment. *)
Definition settled {A : Type} (s : Settled A) : bool :=
  match s with
  | Fulfilled _ => true
  | Rejected _ => false
  end.

Definition fulfilled (c : Call) : Answer c -> bool :=
  match c return Answer c -> bool with
  | DbSelectAlt _ => settled
  | DbSelectId _ => settled
  | DbInsert _ _ => settled
  | DbUpsertAlt _ _ => settled
  | R2Get _ => settled
  | R2Put _ _ _ _ => settled
  | R2Delete _ => settled
  | KvGet _ _ => settled
  | KvPut _ _ _ _ => settled
  | AiRun _ => settled
  | Fetch _ => settled
  | _ => fun _ => true
  end.

(** The answer of a call and its effect on the stores.  A call the oracle
    rejects changes nothing. *)
Definition effect (O : Oracle) (c : Call) (w : World) : Answer c * World :=
  let t := length (log w) in
  let now := clock O t in
  let bad := rejects O t in
  let err := reason O t in
  match c return Answer c * World with
  | CacheMatch key => (cache w !! key, w)
  | CachePut key r => (tt, with_cache (<[key := r]> (cache w)) w)
  | DbSelectAlt i =>
      if bad then (Rejected err, w)
      else (Fulfilled (alt_text <$> List.find (by_id i) (images w)), w)
  | DbSelectId u =>
      if bad then (Rejected err, w)
      else (Fulfilled (id <$> List.find (by_source u) (images w)), w)
  | DbInsert i u =>
      if bad then (Rejected err, w)
      else match db_insert now i u (images w) with
           | Some t' => (Fulfilled tt, with_images t' w)
           | None => (Rejected (js "UNIQUE constraint failed"), w)
           end
  | DbUpsertAlt i a =>
      if bad then (Rejected err, w)
      else (Fulfilled tt, with_images (db_upsert now i a (images w)) w)
  | R2Get i =>
      if bad then (Rejected err, w)
      else (Fulfilled (bucket w !! i), w)
  | R2Put i data mime source =>
      if bad then (Rejected err, w)
      else (Fulfilled tt,
            with_bucket
              (<[i := mkBlob data (Some mime) (Some (source, now))]> (bucket w)) w)
  | R2Delete i =>
      if bad then (Rejected err, w)
      else (Fulfilled tt, with_bucket (delete i (bucket w)) w)
  | KvGet ns key =>
      if bad then (Rejected err, w)
      else (Fulfilled (kv_live now (kv_of ns w) key), w)
  | KvPut ns key value ttl =>
      if bad then (Rejected err, w)
      else (Fulfilled tt,
            with_kv ns (<[key := (value, now + 1000 * ttl)]> (kv_of ns w)) w)
  | AiRun _ =>
      if bad then (Rejected err, w)
      else (Fulfilled (vision O t), w)
  | Fetch u =>
      if bad then (Rejected err, w)
      else (Fulfilled (remote O t u), w)
  | RandomUUID => (uuid O t, w)
  | DateNow => (now, w)
  | Console _ => (tt, w)
  end.

(** One call against the world: its effect, entered in the history. *)
Definition perform (O : Oracle) (c : Call) (w : World) : Answer c * World :=
  let r := effect O c w in (r.1, record (c, fulfilled c r.1) r.2).

(** Running a program to its end. *)
Fixpoint run {A : Type} (O : Oracle) (p : Prog A) (w : World) : A * World :=
  match p with
  | Ret a => (a, w)
  | Vis c k => let '(x, w') := perform O c w in run O (k x) w'
  end.

(** Running a program for at most [n] calls: what is left of it, and the
    world reached. *)
Fixpoint steps {A : Type} (O : Oracle) (n : nat) (p : Prog A) (w : World)
    : Prog A * World :=
  match n, p with
  | S n', Vis c k => let '(x, w') := perform O c w in steps O n' (k x) w'
  | _, _ => (p, w)
  end.

(** The events of a run, in the order of the calls. *)
Fixpoint trace {A : Type} (O : Oracle) (p : Prog A) (w : World) : list Event :=
  match p with
  | Ret _ => []
  | Vis c k => let '(x, w') := perform O c w in (c, fulfilled c x) :: trace O (k x) w'
  end.

(** The call a program is suspended at, if it has not returned. *)
Definition pending {A : Type} (p : Prog A) : option Call :=
  match p with
  | Ret _ => None
  | Vis c _ => Some c
  end.

(** Running the background promises one after the other. *)
Fixpoint run_all (O : Oracle) (tasks : list (Prog unit)) (w : World) : World :=
  match tasks with
  | [] => w
  | p :: rest => run_all O rest (run O p w).2
  end.

(** The events of running the background promises one after the other. *)
Fixpoint trace_all (O : Oracle) (tasks : list (Prog unit)) (w : World) : list Event :=
  match tasks with
  | [] => []
  | p :: rest => trace O p w ++ trace_all O rest (run O p w).2
  end.

Definition calls_of (l : list Event) : list Call := fst <$> l.

(** ** The worker *)

Definition em_dash : N := 8212.
Definition dquote : N := 34.

(** [UUID_RE] *)
Definition is_digit (c : N) : bool := (48 <=? c) && (c <=? 57).
Definition is_hex (c : N) : bool :=
  is_digit c || ((97 <=? c) && (c <=? 102)) || ((65 <=? c) && (c <=? 70)).
Definition is_dash (c : N) : bool := c =? 45.
Definition is_version (c : N) : bool := (49 <=? c) && (c <=? 53).
Definition is_variant (c : N) : bool :=
  bool_decide (c ∈ [56; 57; 97; 98; 65; 66]).

Definition UUID_SHAPE : list (N -> bool) :=
  replicate 8 is_hex ++ [is_dash] ++ replicate 4 is_hex ++ [is_dash]
  ++ [is_version] ++ replicate 3 is_hex ++ [is_dash]
  ++ [is_variant] ++ replicate 3 is_hex ++ [is_dash] ++ replicate 12 is_hex.

Fixpoint matches (shape : list (N -> bool)) (s : JsString) : bool :=
  match shape, s with
  | [], [] => true
  | f :: shape', c :: s' => f c && matches shape' s'
  | _, _ => false
  end.

Definition UUID_RE (s : JsString) : bool := matches UUID_SHAPE s.

(** ASCII case folding, which is all the [i] flag does against the ASCII
    patterns of [isSafeUrl]. *)
Definition fold_case (c : N) : N :=
  if (65 <=? c) && (c <=? 90) then c + 32 else c.

Fixpoint startsWith_i (p s : JsString) : bool :=
  match p, s with
  | [], _ => true
  | a :: p', b :: s' => (fold_case a =? fold_case b) && startsWith_i p' s'
  | _ :: _, [] => false
  end.

(** [/^172\.(1[6-9]|2\d|3[01])\./] *)
Definition class_b (h : JsString) : bool :=
  startsWith (js "172.") h &&
  match drop 4 h with
  | a :: b :: c :: _ =>
      (((a =? 49) && (54 <=? b) && (b <=? 57))
       || ((a =? 50) && is_digit b)
       || ((a =? 51) && ((b =? 48) || (b =? 49))))
      && (c =? 46)
  | _ => false
  end.

(** The five tests of [isSafeUrl] on the literal host name. *)
Definition denied (hostname : JsString) : bool :=
  (startsWith_i (js "localhost") hostname
   || startsWith (js "127.") hostname
   || startsWith (js "0.0.0.0") hostname
   || startsWith (js "::1") hostname)
  || startsWith (js "169.254.") hostname
  || startsWith (js "10.") hostname
  || class_b hostname
  || startsWith (js "192.168.") hostname.

(** [/^https?:\/\/.+/]: the dot matches any code unit that is not a line
    terminator. *)
Definition is_line_terminator (c : N) : bool :=
  bool_decide (c ∈ [10; 13; 8232; 8233]).

Definition http_url (s : JsString) : bool :=
  let rest := if startsWith (js "https://") s then Some (drop 8 s)
              else if startsWith (js "http://") s then Some (drop 7 s)
              else None in
  match rest with
  | Some (c :: _) => negb (is_line_terminator c)
  | _ => false
  end.

(** [toLowerCase] on the code units of a header value (a byte string). *)
Definition lower (c : N) : N :=
  if ((65 <=? c) && (c <=? 90)) || ((192 <=? c) && (c <=? 222) && negb (c =? 215))
  then c + 32 else c.

(** [.split(';')[0]] *)
Fixpoint before_semicolon (s : JsString) : JsString :=
  match s with
  | [] => []
  | c :: r => if c =? 59 then [] else c :: before_semicolon r
  end.

(** [(x / 1024 / 1024).toFixed(2)]: the quotient is exact in binary
    floating point, and [toFixed] rounds its hundredths half up. *)
Definition megabytes (len : N) : JsString :=
  let h := (200 * len + 1048576) / 2097152 in
  let frac := h mod 100 in
  String_of (h / 100) ++ js "."
  ++ (if frac <? 10 then js "0" else []) ++ String_of frac.

(** [[...ALLOWED_TYPES].join(', ')] *)
Definition allowed_list : JsString :=
  js "image/jpeg, image/png, image/gif, image/webp, image/avif".

(** [pathname.replace(/^\/images\/+/, '')] *)
Fixpoint drop_slashes (s : JsString) : JsString :=
  match s with
  | c :: r => if c =? 47 then drop_slashes r else s
  | [] => []
  end.

Definition image_id_of (pathname : JsString) : JsString :=
  if startsWith (js "/images/") pathname then drop_slashes (drop 7 pathname)
  else pathname.

Definition PENDING : JsString :=
  js "Pending " ++ [em_dash] ++ js " description being generated".
Definition LONG_LIVED : JsString := js "public, max-age=" ++ CACHE_MAX_AGE.
Definition SHORT_LIVED : JsString :=
  js "public, max-age=" ++ CACHE_PENDING_AGE ++ js ", stale-while-revalidate=300".

Definition TOO_MANY : Response :=
  mkResponse 429
    (<[h_content_type := js "text/plain"]> {[ h_retry_after := js "60" ]})
    (BodyText (js "Too Many Requests")).

Definition isApiPath (pathname : JsString) : bool :=
  startsWith (js "/images/") pathname
  || bool_decide (pathname = js "/upload")
  || bool_decide (pathname = js "/audit").

Local Open Scope prog_scope.

(** The key of the limiter: the caller's address and the minute. *)
Definition rate_key (ip : JsString) (now : N) : JsString :=
  js "rl:" ++ ip ++ js ":" ++ String_of (now / 60000).

(** [rateLimit]; [None] is [null], the request goes on. *)
Definition rateLimit (request : Request) (env : Env) : Prog (option Response) :=
  if negb (isApiPath (pathname request)) then Ret None
  else if negb (RATE_LIMIT env) then Ret None
  else
    let ip := cf_connecting_ip request ?? js "anonymous" in
    let* now := call DateNow in
    let key := rate_key ip now in
    let* got := call (KvGet RATE_LIMIT_ns key) in
    match got with
    | Rejected _ => call (Console (js "Rate-limit KV error:")) ;; Ret None
    | Fulfilled v =>
        let count := match v with
                     | Some s => Number s
                     | None => Some 0
                     end in
        if match count with
           | Some n => RATE_LIMIT_MAX <=? n
           | None => false
           end
        then Ret (Some TOO_MANY)
        else
          let* put := call (KvPut RATE_LIMIT_ns key
                              (String_of_num ((fun n => n + 1) <$> count))
                              RATE_LIMIT_TTL) in
          match put with
          | Rejected _ => call (Console (js "Rate-limit KV error:")) ;; Ret None
          | Fulfilled _ => Ret None
          end
    end.

(** [requireBearer] *)
Definition requireBearer (request : Request) (env : Env) : option Response :=
  if negb (truthy (ADMIN_TOKEN env))
  then Some (jsonError (js "Server misconfiguration: ADMIN_TOKEN not set") 500)
  else
    let auth := authorization request ?? [] in
    if bool_decide (auth = js "Bearer " ++ (ADMIN_TOKEN env ?? []))
    then None
    else Some (mkResponse 401
                 {[ h_www_authenticate :=
                      js "Bearer realm=" ++ [dquote] ++ js "image-worker" ++ [dquote] ]}
                 (BodyText (js "Unauthorized"))).

(** [generateAltTextOnce] *)
Definition generateAltTextOnce (imageId : JsString) (imageBytes : list N)
    (env : Env) : Prog unit :=
  let* locked :=
    (if AI_QUOTA env then
       let lockKey := js "ai:" ++ imageId in
       let* got := call (KvGet AI_QUOTA_ns lockKey) in
       match got with
       | Rejected _ => call (Console (js "AI dedupe KV error:")) ;; Ret false
       | Fulfilled v =>
           if truthy v then Ret true
           else
             let* put := call (KvPut AI_QUOTA_ns lockKey (js "1") AI_DEDUPE_TTL) in
             match put with
             | Rejected _ => call (Console (js "AI dedupe KV error:")) ;; Ret false
             | Fulfilled _ => Ret false
             end
       end
     else Ret false) in
  if (locked : bool) then Ret tt
  else
    let* result := call (AiRun imageBytes) in
    match result with
    | Rejected _ => call (Console (js "AI/D1 write failed for:"))
    | Fulfilled text =>
        let altText := sanitiseAltText (trim (text ?? [])) in
        if negb (truthy (Some altText))
        then call (Console (js "AI returned empty description for:"))
        else
          let* written := call (DbUpsertAlt imageId altText) in
          match written with
          | Rejected _ => call (Console (js "AI/D1 write failed for:"))
          | Fulfilled _ => Ret tt
          end
    end.

(** The response [generateAndCache] rebuilds: the headers of the original
    with [X-Alt-Text] and [Cache-Control] set anew, the same body. *)
Definition enriched (response : Response) (alt : JsString) : Response :=
  mkResponse 200
    (<[h_cache_control := LONG_LIVED]>
       (<[h_x_alt_text := alt]> (headers response)))
    (body response).

(** [generateAndCache] *)
Definition generateAndCache (imageId : JsString) (imageBytes : list N)
    (cacheKey : JsString) (response : Response) (env : Env) : Prog unit :=
  generateAltTextOnce imageId imageBytes env ;;
  let* row := call (DbSelectAlt imageId) in
  match row with
  | Rejected _ =>
      call (Console (js "Post-AI cache rebuild failed:")) ;;
      call (CachePut cacheKey response)
  | Fulfilled r =>
      if truthy (mjoin r)
      then call (CachePut cacheKey (enriched response (mjoin r ?? [])))
      else call (CachePut cacheKey response)
  end.

(** [altText] of [handleImage]: the [alt_text] of the row when the lookup
    was fulfilled with one, the empty string otherwise. *)
Definition altTextOf (d1Result : Settled (option (option JsString))) : JsString :=
  match d1Result with
  | Fulfilled r => mjoin r ?? []
  | Rejected _ => []
  end.

(** [response] of [handleImage] *)
Definition imageResponse (imageId : JsString) (obj : Blob) (altText : JsString)
    : Response :=
  let described := truthy (Some altText) in
  mkResponse 200
    (set_all
       [ (h_content_type,
          contentType obj ?? js "application/octet-stream");
         (h_x_alt_text, if described then altText else PENDING);
         (h_cache_control, if described then LONG_LIVED else SHORT_LIVED);
         (h_x_image_id, imageId);
         (h_acao, js "*");
         (h_aceh, EXPOSED) ] ∅)
    (BodyBytes (bytes obj)).

(** [handleImage].  The two lookups of [Promise.allSettled] are both made,
    the metadata one first, and each settles on its own. *)
Definition handleImage (imageId : JsString) (request : Request) (env : Env)
    : Prog Reply :=
  if negb (bool_decide (method request = js "GET"))
  then reply (methodNotAllowed (js "GET"))
  else
    let cacheKey := url request in
    let* cached := call (CacheMatch cacheKey) in
    match cached with
    | Some r => reply r
    | None =>
        let* d1Result := call (DbSelectAlt imageId) in
        let* r2Result := call (R2Get imageId) in
        match r2Result with
        | Rejected _ =>
            call (Console (js "R2 error:")) ;;
            reply (jsonError (js "Storage unavailable") 503)
        | Fulfilled None => reply (jsonError (js "Image not found") 404)
        | Fulfilled (Some obj) =>
            (match d1Result with
             | Rejected _ =>
                 call (Console (js "D1 read error (continuing without alt-text):"))
             | Fulfilled _ => Ret tt
             end) ;;
            let altText := altTextOf d1Result in
            let response := imageResponse imageId obj altText in
            if truthy (Some altText)
            then Ret (mkReply response [call (CachePut cacheKey response)])
            else Ret (mkReply response
                        [generateAndCache imageId (bytes obj) cacheKey response env])
        end
    end.

(** The compensating delete of [handleUpload]: the promise of
    [env.IMAGES.delete(imageId)] with its [.catch] handler, which the
    handler does not await. *)
Definition rollback (imageId : JsString) : Prog unit :=
  let* deleted := call (R2Delete imageId) in
  match deleted with
  | Rejected _ => call (Console (js "R2 rollback failed:"))
  | Fulfilled _ => Ret tt
  end.

Definition uploaded (st : N) (imageId message : JsString) : Response :=
  withCors
    (mkResponse st {[ h_content_type := js "application/json" ]}
       (BodyJson (JObj [ (js "imageId", JStr imageId);
                         (js "url", JStr (js "/images/" ++ imageId));
                         (js "message", JStr message) ]))).

(** [mimeType] of [handleUpload] *)
Definition mimeTypeOf (img : Fetched) : JsString :=
  lower <$> trim (before_semicolon (f_content_type img ?? [])).

Section Worker.

(** [new URL(s).hostname] of the platform: [None] when the constructor
    throws. *)
Variable hostname_of : JsString -> option JsString.

(** The page of the dashboard, and the audit listing.  Neither takes part
    in the properties below; the router is modelled for any page and any
    listing handler. *)
Variable dashboard : JsString.
Variable handleAudit : Request -> Env -> Prog Reply.

(** [isSafeUrl] *)
Definition isSafeUrl (urlStr : JsString) : bool :=
  match hostname_of urlStr with
  | Some hostname => negb (denied hostname)
  | None => false
  end.

(** [handleUpload] *)
Definition handleUpload (request : Request) (env : Env) : Prog Reply :=
  if negb (bool_decide (method request = js "POST"))
  then reply (methodNotAllowed (js "POST"))
  else
    match requireBearer request env with
    | Some authError => reply authError
    | None =>
        match json request with
        | None =>
            reply (jsonError
                     (js "Invalid JSON " ++ [em_dash] ++ js " expected: {"
                      ++ [dquote] ++ js "url" ++ [dquote] ++ js ":" ++ [dquote]
                      ++ js "https://..." ++ [dquote] ++ js "}") 400)
        | Some member =>
            let sourceUrl := trim (member ?? []) in
            if negb (http_url sourceUrl)
            then reply (jsonError (js "Valid https URL required") 400)
            else if negb (isSafeUrl sourceUrl)
            then reply (withCors
                          (jsonError (js "URL resolves to a disallowed network range") 400))
            else
              let* existing := call (DbSelectId sourceUrl) in
              match existing with
              | Rejected _ =>
                  call (Console (js "D1 dedupe check failed:")) ;;
                  reply (jsonError (js "Database unavailable") 503)
              | Fulfilled (Some found) =>
                  reply (uploaded 200 found (js "Already uploaded"))
              | Fulfilled None =>
                  let* imgResponse := call (Fetch sourceUrl) in
                  match imgResponse with
                  | Rejected message =>
                      reply (withCors
                               (jsonError (js "Failed to fetch source URL: " ++ message) 502))
                  | Fulfilled img =>
                      if negb ((200 <=? f_status img) && (f_status img <=? 299))
                      then reply (withCors
                                    (jsonError
                                       (js "Source URL returned " ++ String_of (f_status img))
                                       502))
                      else
                        let mimeType := mimeTypeOf img in
                        if negb (bool_decide (mimeType ∈ ALLOWED_TYPES))
                        then reply (withCors
                                      (jsonError
                                         (js "Unsupported media type: " ++ mimeType
                                          ++ js ". Allowed: " ++ allowed_list) 415))
                        else
                          let data := f_payload img in
                          if MAX_IMAGE_BYTES <? N.of_nat (length data)
                          then reply (withCors
                                        (jsonError
                                           (js "Image exceeds 10 MB limit (got "
                                            ++ megabytes (N.of_nat (length data))
                                            ++ js " MB)") 413))
                          else
                            let* imageId := call RandomUUID in
                            let* stored := call (R2Put imageId data mimeType sourceUrl) in
                            match stored with
                            | Rejected _ =>
                                call (Console (js "R2 put failed:")) ;;
                                reply (jsonError (js "Storage unavailable") 503)
                            | Fulfilled _ =>
                                let* inserted := call (DbInsert imageId sourceUrl) in
                                match inserted with
                                | Rejected _ =>
                                    call (Console
                                            (js "D1 insert failed " ++ [em_dash]
                                             ++ js " rolling back R2:")) ;;
                                    Ret (mkReply
                                           (jsonError (js "Database unavailable") 503)
                                           [rollback imageId])
                                | Fulfilled _ =>
                                    reply (uploaded 201 imageId
                                             (js "Image uploaded " ++ [em_dash]
                                              ++ js " alt-text will generate on first access"))
                                end
                            end
                  end
              end
        end
    end.

(** [handleRoot] *)
Definition handleRoot : Prog Reply :=
  reply (mkResponse 200 {[ h_content_type := js "text/html;charset=UTF-8" ]}
           (BodyText dashboard)).

(** The routes of [router], after the limiter has let the request pass. *)
Definition dispatch (request : Request) (env : Env) : Prog Reply :=
  if bool_decide (pathname request = js "/") then handleRoot
  else if bool_decide (pathname request = js "/favicon.ico")
  then reply (mkResponse 204 ∅ BodyNull)
  else if bool_decide (pathname request = js "/audit")
  then handleAudit request env
  else if bool_decide (pathname request = js "/upload")
  then handleUpload request env
  else
    let imageId := image_id_of (pathname request) in
    if startsWith (js "/images/") (pathname request) && UUID_RE imageId
    then handleImage imageId request env
    else reply (mkResponse 404 {[ h_content_type := js "application/json" ]}
                  (BodyJson
                     (JObj [ (js "error", JStr (js "Not found"));
                             (js "routes",
                              JArr [ JStr (js "GET /images/:uuid");
                                     JStr (js "POST /upload");
                                     JStr (js "GET /audit") ]) ]))).

(** [router] *)
Definition router (request : Request) (env : Env) : Prog Reply :=
  if bool_decide (method request = js "OPTIONS")
  then reply (mkResponse 204 (set_all CORS_HEADERS ∅) BodyNull)
  else if bool_decide (pathname request = js "/health")
  then
    let* ts := call DateNow in
    reply (mkResponse 200
             (set_all CORS_HEADERS {[ h_content_type := js "application/json" ]})
             (BodyJson (JObj [(js "status", JStr (js "ok")); (js "ts", JNum ts)])))
  else
    let* rateLimitResponse := rateLimit request env in
    match rateLimitResponse with
    | Some limited => reply limited
    | None => dispatch request env
    end.

End Worker.

(** ** Vocabulary of the properties *)

(** [confined P Q p]: whatever the platform answers, every call [p] makes
    satisfies [P] and every value it returns satisfies [Q]. *)
Inductive confined {A : Type} (P : Call -> Prop) (Q : A -> Prop) : Prog A -> Prop :=
| confined_ret (a : A) : Q a -> confined P Q (Ret a)
| confined_vis (c : Call) (k : Answer c -> Prog A) :
    P c -> (forall x, confined P Q (k x)) -> confined P Q (Vis c k).

(** The same for a handler and the promises it leaves running. *)
Definition confined_reply (P : Call -> Prop) (p : Prog Reply) : Prop :=
  confined P (fun r => Forall (confined P (fun _ => True)) (background r)) p.

(** A request served to its end: the handler, then its background promises. *)
Definition served (O : Oracle) (handler : Prog Reply) (w : World) : World :=
  run_all O (background (run O handler w).1) (run O handler w).2.

(** The events of a request served to its end. *)
Definition served_trace (O : Oracle) (handler : Prog Reply) (w : World) : list Event :=
  trace O handler w
  ++ trace_all O (background (run O handler w).1) (run O handler w).2.

(** The description the table holds for an image. *)
Definition description (w : World) (imageId : JsString) : option JsString :=
  List.find (by_id imageId) (images w) ≫= alt_text.

(** The two shapes of the description and freshness headers of an image
    response: a description with the long-lived directive, or the
    placeholder with the short-lived one. *)
Definition described_headers (r : Response) : Prop :=
  exists d, d <> [] /\ headers r !! h_x_alt_text = Some d
            /\ headers r !! h_cache_control = Some LONG_LIVED.

Definition pending_headers (r : Response) : Prop :=
  headers r !! h_x_alt_text = Some PENDING
  /\ headers r !! h_cache_control = Some SHORT_LIVED.

Definition image_headers (r : Response) : Prop :=
  described_headers r \/ pending_headers r.

(** Every entry of the cache has one of the two shapes. *)
Definition cache_shaped (w : World) : Prop :=
  forall key r, cache w !! key = Some r -> image_headers r.

Definition caches_image_headers (c : Call) : Prop :=
  match c with
  | CachePut _ r => image_headers r
  | _ => True
  end.

(** A description as the enrichment persists it: a non-empty output of the
    sanitiser. *)
Definition sanitiser_output (a : JsString) : Prop :=
  a <> [] /\ exists raw, a = sanitiseAltText raw.

(** Every description of the table is one. *)
Definition sanitised (t : list Row) : Prop :=
  forall row a, row ∈ t -> alt_text row = Some a -> sanitiser_output a.

Definition writes_sanitised (c : Call) : Prop :=
  match c with
  | DbUpsertAlt _ a => sanitiser_output a
  | _ => True
  end.

Definition is_cache_put (c : Call) : bool :=
  match c with
  | CachePut _ _ => true
  | _ => false
  end.

Definition is_ai_run (c : Call) : bool :=
  match c with
  | AiRun _ => true
  | _ => false
  end.


(** A background promise that touches the cache in its last call only,
    where it stores under [key] a response satisfying [P]. *)
Inductive writes_last (key : JsString) (P : Response -> Prop) : Prog unit -> Prop :=
| writes_last_put (r : Response) (k : unit -> Prog unit) :
    P r -> (forall x, k x = Ret tt) ->
    writes_last key P (Vis (CachePut key r) k)
| writes_last_vis (c : Call) (k : Answer c -> Prog unit) :
    is_cache_put c = false -> (forall x, writes_last key P (k x)) ->
    writes_last key P (Vis c k).

(** The response the promise of a pending read ends up caching: the one
    it was given, or that one rebuilt around a description. *)
Definition rebuilt (response r : Response) : Prop :=
  r = response \/ exists alt, alt <> [] /\ r = enriched response alt.



(** The limiter run for a sequence of requests, one after the other:
    its verdicts. *)
Fixpoint limited (O : Oracle) (env : Env) (requests : list Request) (w : World)
    : list (option Response) :=
  match requests with
  | [] => []
  | r :: rest =>
      (run O (rateLimit r env) w).1 :: limited O env rest (run O (rateLimit r env) w).2
  end.







(** ** A scenario: one image, ingested and not yet described *)

Module Scenario.

Definition id0 : JsString := js "123e4567-e89b-42d3-a456-426614174000".
Definition src0 : JsString := js "https://example.com/a.jpg".
Definition token : JsString := js "s3cret".

Definition env0 : Env := mkEnv true true (Some token).

Definition read0 : Request :=
  mkRequest (js "GET") (js "https://img.example/images/" ++ id0)
            (js "/images/" ++ id0) (Some (js "203.0.113.7")) None None.

Definition upload0 : Request :=
  mkRequest (js "POST") (js "https://img.example/upload") (js "/upload")
            (Some (js "203.0.113.7")) (Some (js "Bearer " ++ token))
            (Some (Some src0)).

(** An upload that points at the loopback interface. *)
Definition upload_local : Request :=
  mkRequest (js "POST") (js "https://img.example/upload") (js "/upload")
            (Some (js "203.0.113.7")) (Some (js "Bearer " ++ token))
            (Some (Some (js " http://127.0.0.1:8080/admin.png "))).

Definition blob0 : Blob :=
  mkBlob [255; 216; 255; 224] (Some (js "image/jpeg")) (Some (src0, 0)).

(** The image is stored and recorded, nothing is cached or locked. *)
Definition cold : World :=
  mkWorld ∅ [mkRow id0 (Some src0) None (Some 0) None] {[ id0 := blob0 ]} ∅ ∅ [].

(** The same image once its description is persisted. *)
Definition described : World :=
  mkWorld ∅ [mkRow id0 (Some src0) (Some (js "A cat")) (Some 0) (Some 5000)]
          {[ id0 := blob0 ]} ∅ ∅ [].


(** The caller of the scenario has used up the current minute: the limiter
    holds the count 10 for it (the clock of [healthy] stands in minute 0). *)
Definition saturated : World :=
  mkWorld ∅ [mkRow id0 (Some src0) None (Some 0) None] {[ id0 := blob0 ]}
          {[ rate_key (js "203.0.113.7") 1000 := (js "10", 76000) ]} ∅ [].

(** Nothing stored yet. *)
Definition empty : World := mkWorld ∅ [] ∅ ∅ ∅ [].

(** The host name of the scenario's URLs (no user info, no IPv6 literal,
    lower case), as the platform parses them: what stands between the scheme
    and the port, path, query or fragment. *)
Definition ends_host (c : N) : bool :=
  bool_decide (c ∈ [47; 58; 63; 35]).

Fixpoint host_part (s : JsString) : JsString :=
  match s with
  | [] => []
  | c :: r => if ends_host c then [] else c :: host_part r
  end.

Definition hostname0 (s : JsString) : option JsString :=
  if startsWith (js "https://") s then Some (host_part (drop 8 s))
  else if startsWith (js "http://") s then Some (host_part (drop 7 s))
  else None.

(** The page of the scenario, and [handleAudit] as it answers while the
    table cannot be read: the method and bearer checks, then the 503 of its
    [catch]. *)
Definition page0 : JsString := js "<!DOCTYPE html>".

Definition audit0 (request : Request) (env : Env) : Prog Reply :=
  if negb (bool_decide (method request = js "GET"))
  then reply (methodNotAllowed (js "GET"))
  else
    match requireBearer request env with
    | Some authError => reply authError
    | None => reply (withCors (jsonError (js "Database unavailable") 503))
    end.

(** A healthy environment: no call is rejected, the clock stands at one
    second, the model answers with markup around its sentence. *)
Definition healthy : Oracle :=
  mkOracle (fun _ => false) (fun _ => js "unavailable") (fun _ => 1000)
           (fun _ => Some (js " A <b>cat</b> "))
           (fun _ _ => mkFetched 200 (Some (js "image/jpeg; q=1")) [255; 216; 255; 224])
           (fun _ => id0).

(** The same, except that the call at position [t] of the history is
    rejected. *)
Definition failing_at (t : nat) : Oracle :=
  mkOracle (fun i => bool_decide (i = t)) (reason healthy) (clock healthy)
           (vision healthy) (remote healthy) (uuid healthy).

End Scenario.

(** ** Vocabulary of the further properties *)

(** A text with none of the six characters of [HTML_ESCAPE_MAP]. *)
Definition plain (s : JsString) : Prop :=
  Forall (fun c => c ∉ [amp; lt; gt; quot; apos; backtick]) s.

(** No tag is left in a text: no [<] with a [>] somewhere after it. *)
Fixpoint tagless (s : JsString) : bool :=
  match s with
  | [] => true
  | c :: r => (negb (c =? lt) || negb (has_gt r)) && tagless r
  end.

(** The dotted-decimal text of an IPv4 address. *)
Definition dotted (a b c d : N) : JsString :=
  String_of a ++ js "." ++ String_of b ++ js "." ++ String_of c ++ js "."
  ++ String_of d.

(** The loopback, unspecified, link-local and private addresses. *)
Definition reserved (a b c d : N) : Prop :=
  a = 127 \/ (a = 0 /\ b = 0 /\ c = 0 /\ d = 0) \/ (a = 169 /\ b = 254)
  \/ a = 10 \/ (a = 172 /\ 16 <= b <= 31) \/ (a = 192 /\ b = 168).

(** The second and third code units of the class B test, [1[6-9]|2\d|3[01]]. *)
Definition sixteen_to_thirty_one (x y : N) : bool :=
  ((x =? 49) && (54 <=? y) && (y <=? 57))
  || ((x =? 50) && is_digit y)
  || ((x =? 51) && ((y =? 48) || (y =? 49))).

(** The bearer check passes: the secret is configured, and the header is
    [Bearer] followed by it. *)
Definition authorised (request : Request) (env : Env) : Prop :=
  exists token, token <> [] /\ ADMIN_TOKEN env = Some token
                /\ authorization request = Some (js "Bearer " ++ token).

(** The message of a first upload. *)
Definition CREATED : JsString :=
  js "Image uploaded " ++ [em_dash] ++ js " alt-text will generate on first access".

(** An upload with a guessed secret. *)
Definition upload_guess : Request :=
  mkRequest (js "POST") (js "https://img.example/upload") (js "/upload")
            None (Some (js "Bearer guess")) (Some (Some Scenario.src0)).

(** An upload of a URL with another scheme. *)
Definition upload_ftp : Request :=
  mkRequest (js "POST") (js "https://img.example/upload") (js "/upload")
            None (Some (js "Bearer " ++ Scenario.token))
            (Some (Some (js "ftp://example.com/a.jpg"))).

(** The calls of the enrichment: the lock, the inference, the write of its
    result. *)
Definition is_enrichment (c : Call) : bool :=
  match c with
  | AiRun _ | DbUpsertAlt _ _ | KvGet AI_QUOTA_ns _ | KvPut AI_QUOTA_ns _ _ _ => true
  | _ => false
  end.

(** The key of the lock of the enrichment of an image. *)
Definition lock_key (imageId : JsString) : JsString := js "ai:" ++ imageId.

(** No two records share an id or a source URL. *)
Definition keys_unique (t : list Row) : Prop :=
  NoDup (id <$> t) /\ NoDup (omap source_url t).

(** The two [try] blocks of [generateAltTextOnce], each on its own: the
    best-effort lock, which tells whether another worker holds it, and the
    inference with the write of its result. *)
Definition acquire_lock (imageId : JsString) (env : Env) : Prog bool :=
  if AI_QUOTA env then
    let lockKey := js "ai:" ++ imageId in
    let* got := call (KvGet AI_QUOTA_ns lockKey) in
    match got with
    | Rejected _ => call (Console (js "AI dedupe KV error:")) ;; Ret false
    | Fulfilled v =>
        if truthy v then Ret true
        else
          let* put := call (KvPut AI_QUOTA_ns lockKey (js "1") AI_DEDUPE_TTL) in
          match put with
          | Rejected _ => call (Console (js "AI dedupe KV error:")) ;; Ret false
          | Fulfilled _ => Ret false
          end
    end
  else Ret false.

Definition infer_and_store (imageId : JsString) (imageBytes : list N) : Prog unit :=
  let* result := call (AiRun imageBytes) in
  match result with
  | Rejected _ => call (Console (js "AI/D1 write failed for:"))
  | Fulfilled text =>
      let altText := sanitiseAltText (trim (text ?? [])) in
      if negb (truthy (Some altText))
      then call (Console (js "AI returned empty description for:"))
      else
        let* written := call (DbUpsertAlt imageId altText) in
        match written with
        | Rejected _ => call (Console (js "AI/D1 write failed for:"))
        | Fulfilled _ => Ret tt
        end
  end.

(** The calls of the lock. *)
Definition is_lock_call (c : Call) : bool :=
  match c with
  | KvGet AI_QUOTA_ns _ | KvPut AI_QUOTA_ns _ _ _ | Console _ => true
  | _ => false
  end.

(** The calls that name an image by its id: the id has the shape of a
    UUID. *)
Definition keyed_by_uuid (c : Call) : Prop :=
  match c with
  | R2Get i | DbSelectAlt i | DbUpsertAlt i _ => UUID_RE i = true
  | _ => True
  end.

(** A request for the health check. *)
Definition health0 : Request :=
  mkRequest (js "GET") (js "https://img.example/health") (js "/health")
            (Some (js "203.0.113.7")) None None.

(** * Properties *)

Import Scenario.

(** ** The sanitiser *)

Example sanitise_plain :
  sanitiseAltText (js "  A <b>red</b> bird & a 'cat'  ")
  = js "A red bird &amp; a &#39;cat&#39;".
Proof. vm_compute. reflexivity. Qed.

Example sanitise_unclosed : sanitiseAltText (js "a < b") = js "a &lt; b".
Proof. vm_compute. reflexivity. Qed.

Example sanitise_nested : sanitiseAltText (js "x<<i>y>z") = js "xy&gt;z".
Proof. vm_compute. reflexivity. Qed.

Lemma escape_cons c s : escape (c :: s) = (HTML_ESCAPE_MAP c ?? [c]) ++ escape s.
Proof. reflexivity. Qed.

Lemma escape_map_markup c : forallb (fun d => negb (markup d)) (HTML_ESCAPE_MAP c ?? [c]) = true.
Proof.
  unfold HTML_ESCAPE_MAP.
  destruct (c =? amp) eqn:Ea; [reflexivity|].
  destruct (c =? lt) eqn:El; [reflexivity|].
  destruct (c =? gt) eqn:Eg; [reflexivity|].
  destruct (c =? quot) eqn:Eq; [reflexivity|].
  destruct (c =? apos) eqn:Ep; [reflexivity|].
  destruct (c =? backtick) eqn:Eb; [reflexivity|].
  simpl. unfold markup. rewrite El, Eg, Eq, Ep, Eb. reflexivity.
Qed.

(** The escaped text holds none of the five markup characters. *)
Lemma escape_no_markup s : forallb (fun d => negb (markup d)) (escape s) = true.
Proof.
  induction s as [|c s IH]; [reflexivity|].
  rewrite escape_cons, forallb_app, escape_map_markup, IH. reflexivity.
Qed.

Lemma forallb_take {A} (f : A -> bool) n (l : list A) :
  forallb f l = true -> forallb f (take n l) = true.
Proof.
  revert n. induction l as [|a l IH]; intros [|n] H; simpl in *; try reflexivity.
  apply andb_prop in H as [Ha Hl]. rewrite Ha, (IH n Hl). reflexivity.
Qed.

Lemma sanitise_no_markup x :
  forallb (fun d => negb (markup d)) (sanitiseAltText x) = true.
Proof. apply forallb_take, escape_no_markup. Qed.

(** Text without [<] has no tag to remove. *)
Lemma strip_no_lt s : forallb (fun d => negb (d =? lt)) s = true -> strip s = s.
Proof.
  induction s as [|c s IH]; [reflexivity|]. simpl. intros H.
  apply andb_prop in H as [Hc Hs]. apply negb_true_iff in Hc.
  rewrite Hc. simpl. rewrite (IH Hs). reflexivity.
Qed.

(** Text without any of the six characters is left as it is. *)
Lemma escape_clean s :
  forallb (fun d => negb (markup d) && negb (d =? amp)) s = true -> escape s = s.
Proof.
  induction s as [|c s IH]; [reflexivity|]. intros H. simpl in H.
  apply andb_prop in H as [Hc Hs]. rewrite escape_cons, (IH Hs).
  apply andb_prop in Hc as [Hm Ha].
  apply negb_true_iff in Hm, Ha. unfold markup in Hm.
  repeat (apply orb_false_elim in Hm as [Hm ?]).
  unfold HTML_ESCAPE_MAP.
  repeat match goal with H : (c =? _) = false |- _ => rewrite H; clear H end.
  reflexivity.
Qed.

Lemma forallb_weaken {A} (f g : A -> bool) (l : list A) :
  (forall a, f a = true -> g a = true) -> forallb f l = true -> forallb g l = true.
Proof.
  intros Hfg. induction l as [|a l IH]; simpl; [reflexivity|].
  intros H. apply andb_prop in H as [Ha Hl]. rewrite (Hfg _ Ha), (IH Hl). reflexivity.
Qed.

Lemma sanitise_length x : (length (sanitiseAltText x) <= ALT_TEXT_MAX_LEN)%nat.
Proof. unfold sanitiseAltText. rewrite length_take. lia. Qed.

(** C3 (as the code has it). Sanitising twice gives the same as
    sanitising once for every text whose sanitised form holds no [&] (nothing
    was escaped) and has no white space at either end. *)
Theorem sanitise_idempotent_when_clean x :
  amp ∉ sanitiseAltText x ->
  trim (sanitiseAltText x) = sanitiseAltText x ->
  sanitiseAltText (sanitiseAltText x) = sanitiseAltText x.
Proof.
  set (y := sanitiseAltText x). intros Hamp Htrim.
  assert (Hm : forallb (fun d => negb (markup d)) y = true) by apply sanitise_no_markup.
  assert (Hclean : forallb (fun d => negb (markup d) && negb (d =? amp)) y = true).
  { clear Htrim. induction y as [|c y IH]; [reflexivity|]. simpl in *.
    apply andb_prop in Hm as [Hc Hy]. rewrite Hc. simpl.
    apply not_elem_of_cons in Hamp as [Hne Hrest].
    rewrite (IH Hrest Hy), andb_true_r.
    apply negb_true_iff, N.eqb_neq. congruence. }
  unfold sanitiseAltText at 1. rewrite Htrim.
  rewrite strip_no_lt.
  2:{ eapply forallb_weaken; [|exact Hm]. intros a Ha. unfold markup in Ha.
      destruct (a =? lt); [discriminate Ha | reflexivity]. }
  rewrite (escape_clean _ Hclean).
  apply take_ge. apply sanitise_length.
Qed.

Lemma sanitise_idempotent_when_clean_witness :
  ((amp ∉ sanitiseAltText (js "  A <b>red</b> bird  "))
   /\ trim (sanitiseAltText (js "  A <b>red</b> bird  "))
      = sanitiseAltText (js "  A <b>red</b> bird  "))
  /\ sanitiseAltText (sanitiseAltText (js "  A <b>red</b> bird  "))
     = sanitiseAltText (js "  A <b>red</b> bird  ").
Proof.
  assert (H1 : amp ∉ sanitiseAltText (js "  A <b>red</b> bird  ")).
  { apply (bool_decide_unpack _). vm_compute. exact I. }
  assert (H2 : trim (sanitiseAltText (js "  A <b>red</b> bird  "))
               = sanitiseAltText (js "  A <b>red</b> bird  "))
    by (vm_compute; reflexivity).
  split; [split; assumption|].
  exact (sanitise_idempotent_when_clean _ H1 H2).
Defined.

(** C3 (as stated) fails: the entity of an ampersand is escaped again. *)
Lemma sanitise_not_idempotent :
  sanitiseAltText (js "&") = js "&amp;"
  /\ sanitiseAltText (sanitiseAltText (js "&")) = js "&amp;amp;"
  /\ sanitiseAltText (sanitiseAltText (js "&")) <> sanitiseAltText (js "&").
Proof.
  split; [vm_compute; reflexivity|]. split; [vm_compute; reflexivity|].
  vm_compute. discriminate.
Qed.

(** Two more ways in which a second pass differs: the cut at 500 code
    units can leave white space at the end, and a removed tag can leave it
    at the start. *)
Example sanitise_twice_after_tag :
  sanitiseAltText (js "<b> a") = js " a"
  /\ sanitiseAltText (sanitiseAltText (js "<b> a")) = js "a".
Proof. split; vm_compute; reflexivity. Qed.

(** ** Programs and their runs *)

(** Symbolic execution: unfold the run by one call and split on whether
    the oracle rejects it. *)
Ltac exec_cbn :=
  cbn [bind call trace run steps pending perform effect record log fulfilled
       settled length fst snd cache images bucket rate_limit_kv ai_quota_kv
       with_cache with_images with_bucket with_kv kv_of reply response
       background negb fmap option_fmap option_map].

Ltac exec :=
  repeat (exec_cbn;
          match goal with
          | |- context [if rejects ?O ?t then _ else _] =>
              let E := fresh "E" in destruct (rejects O t) eqn:E
          end);
  exec_cbn.

(** An event is in a trace: by running the trace as far as the event. *)
Ltac in_run :=
  repeat first [ apply list_elem_of_here | apply list_elem_of_further ].

(** An event assumed in an explicit trace: split on where it sits, which
    closes the goal when the trace holds no such event. *)
Ltac decide_in H :=
  repeat (apply elem_of_cons in H as [H|H]; [try discriminate H|]);
  try (apply elem_of_nil in H; destruct H).

Ltac absurd_trace :=
  solve [ let H := fresh in intros H; decide_in H
        | let H := fresh in let H' := fresh in intros H H'; decide_in H' ].

Ltac in_trace := first [ absurd_trace | solve [in_run] ].

Lemma run_bind {A B} O (p : Prog A) (f : A -> Prog B) w :
  run O (bind p f) w = run O (f (run O p w).1) (run O p w).2.
Proof.
  revert w. induction p as [a|c k IH]; intros w; [reflexivity|].
  cbn [bind run]. destruct (perform O c w) as [x w']. apply IH.
Qed.

Lemma trace_bind {A B} O (p : Prog A) (f : A -> Prog B) w :
  trace O (bind p f) w = trace O p w ++ trace O (f (run O p w).1) (run O p w).2.
Proof.
  revert w. induction p as [a|c k IH]; intros w; [reflexivity|].
  cbn [bind run trace]. destruct (perform O c w) as [x w'].
  rewrite IH. reflexivity.
Qed.

(** The history grows by the trace of the run. *)
Lemma run_log {A} O (p : Prog A) w :
  log (run O p w).2 = rev (trace O p w) ++ log w.
Proof.
  revert w. induction p as [a|c k IH]; intros w; [reflexivity|].
  cbn [run trace]. unfold perform. cbn [fst snd].
  rewrite IH. cbn [record log rev].
  assert (Hlog : log (effect O c w).2 = log w).
  { destruct c; cbn [effect]; repeat case_match; try reflexivity;
      destruct ns; reflexivity. }
  rewrite Hlog, <- app_assoc. reflexivity.
Qed.

Lemma confined_weaken {A} (P P' : Call -> Prop) (Q Q' : A -> Prop) p :
  (forall c, P c -> P' c) -> (forall a, Q a -> Q' a) ->
  confined P Q p -> confined P' Q' p.
Proof. intros HP HQ. induction 1; constructor; auto. Qed.

Lemma confined_bind {A B} (P : Call -> Prop) (Q : A -> Prop) (R : B -> Prop)
    (p : Prog A) (f : A -> Prog B) :
  confined P Q p -> (forall a, Q a -> confined P R (f a)) ->
  confined P R (bind p f).
Proof. intros Hp Hf. induction Hp; cbn [bind]; [auto | constructor; auto]. Qed.

Lemma confined_call (P : Call -> Prop) c :
  P c -> confined P (fun _ : Answer c => True) (call c).
Proof. intros Hc. constructor; [exact Hc | intros x; constructor; exact I]. Qed.

Lemma confined_put (P : Call -> Prop) key r :
  P (CachePut key r) ->
  confined P (fun _ : unit => True) (call (CachePut key r)).
Proof. apply (confined_call P (CachePut key r)). Qed.

(** What [confined] means for a run. *)
Lemma confined_run {A} (P : Call -> Prop) (Q : A -> Prop) O (p : Prog A) w :
  confined P Q p ->
  Forall (fun e => P e.1) (trace O p w) /\ Q (run O p w).1.
Proof.
  intros H. revert w. induction H as [a Ha|c k Hc _ IH]; intros w.
  - split; [constructor | exact Ha].
  - cbn [run trace]. destruct (perform O c w) as [x w'].
    destruct (IH x w') as [Ht Hq]. split; [constructor; assumption | exact Hq].
Qed.

Lemma confined_trace_all (P : Call -> Prop) O tasks w :
  Forall (confined P (fun _ => True)) tasks ->
  Forall (fun e => P e.1) (trace_all O tasks w).
Proof.
  intros H. revert w. induction H as [|p rest Hp _ IH]; intros w; [constructor|].
  cbn [trace_all]. apply Forall_app. split; [|apply IH].
  eapply confined_run in Hp. apply Hp.
Qed.

Lemma confined_served (P : Call -> Prop) O (p : Prog Reply) w :
  confined_reply P p -> Forall (fun e => P e.1) (served_trace O p w).
Proof.
  intros H. apply (confined_run _ _ O p w) in H as [Ht Hb].
  apply Forall_app. split; [exact Ht | apply confined_trace_all, Hb].
Qed.

(** Structural proof of [confined] for a written-out program. *)
Ltac confine :=
  repeat first
    [ progress cbn [bind call reply]
    | apply confined_ret
    | apply confined_vis; [| intros ?]
    | match goal with
      | |- confined _ _ (if ?b then _ else _) => destruct b eqn:?
      | |- confined _ _ (bind (if ?b then _ else _) _) => destruct b eqn:?
      | |- confined _ _ (match ?x with _ => _ end) => destruct x
      | |- confined _ _ (bind (match ?x with _ => _ end) _) => destruct x
      end ].

(** ** The stores under a call *)

Lemma effect_cache O c w :
  is_cache_put c = false -> cache (effect O c w).2 = cache w.
Proof.
  destruct c; cbn [effect is_cache_put]; intros H; try discriminate H;
    repeat case_match; try reflexivity; destruct ns; reflexivity.
Qed.

Lemma perform_cache O c w :
  is_cache_put c = false -> cache (perform O c w).2 = cache w.
Proof. intros H. unfold perform. cbn [snd record cache]. apply effect_cache, H. Qed.

(** ** Reading an image *)

Lemma header_ne (a b : string) :
  bool_decide (js a = js b) = false -> js a <> js b.
Proof. intros H. apply bool_decide_eq_false in H. exact H. Qed.

Ltac headers_neq := apply header_ne; vm_compute; reflexivity.

Lemma imageResponse_alt imageId obj altText :
  headers (imageResponse imageId obj altText) !! h_x_alt_text
  = Some (if truthy (Some altText) then altText else PENDING).
Proof.
  unfold imageResponse. cbn [headers set_all fold_left fst snd].
  do 4 (rewrite lookup_insert_ne by headers_neq).
  apply lookup_insert_eq.
Qed.

Lemma imageResponse_cache_control imageId obj altText :
  headers (imageResponse imageId obj altText) !! h_cache_control
  = Some (if truthy (Some altText) then LONG_LIVED else SHORT_LIVED).
Proof.
  unfold imageResponse. cbn [headers set_all fold_left fst snd].
  do 3 (rewrite lookup_insert_ne by headers_neq).
  apply lookup_insert_eq.
Qed.

Lemma imageResponse_headers imageId obj altText :
  image_headers (imageResponse imageId obj altText).
Proof.
  unfold image_headers, described_headers, pending_headers.
  rewrite imageResponse_alt, imageResponse_cache_control.
  destruct altText as [|c s]; cbn [truthy]; [right; split; reflexivity|].
  left. exists (c :: s). split; [discriminate | split; reflexivity].
Qed.

Lemma enriched_headers response alt :
  alt <> [] -> image_headers (enriched response alt).
Proof.
  intros Halt. left. exists alt. split; [exact Halt|].
  unfold enriched. cbn [headers]. split.
  - rewrite lookup_insert_ne by headers_neq. apply lookup_insert_eq.
  - apply lookup_insert_eq.
Qed.

Lemma truthy_nonempty s : truthy (Some s) = true -> s <> [].
Proof. destruct s; [discriminate | discriminate]. Qed.

(** C6. A read whose blob is present and whose metadata lookup is rejected
    still answers 200 with the blob's bytes, the pending placeholder as
    description and the short-lived directive; and its status and body are
    those of the same read under any other behaviour of the platform in which
    the blob read is fulfilled: a failure of the metadata store does not
    change what is delivered. *)
Theorem read_survives_metadata_failure O env request imageId obj w :
  method request = js "GET" ->
  cache w !! url request = None ->
  bucket w !! imageId = Some obj ->
  (R2Get imageId, true) ∈ trace O (handleImage imageId request env) w ->
  (DbSelectAlt imageId, false) ∈ trace O (handleImage imageId request env) w ->
  let r := response (run O (handleImage imageId request env) w).1 in
  (status r = 200 /\ body r = BodyBytes (bytes obj)
   /\ headers r !! h_x_alt_text = Some PENDING
   /\ headers r !! h_cache_control = Some SHORT_LIVED)
  /\ forall O',
       (R2Get imageId, true) ∈ trace O' (handleImage imageId request env) w ->
       let r' := response (run O' (handleImage imageId request env) w).1 in
       status r' = status r /\ body r' = body r.
Proof.
  intros Hm Hc Hb. unfold handleImage.
  rewrite Hm, bool_decide_eq_true_2 by reflexivity.
  exec_cbn. rewrite Hc. exec; rewrite ?Hb; exec_cbn;
    cbn [altTextOf truthy]; exec_cbn;
    try solve [in_trace | case_match; exec_cbn; in_trace].
  intros _ _. split.
  - rewrite imageResponse_alt, imageResponse_cache_control. cbn [truthy].
    repeat split; reflexivity.
  - intros O'. exec; rewrite ?Hb; exec_cbn; try solve [in_trace].
    all: intros _; repeat case_match; split; reflexivity.
Qed.


Lemma read_survives_metadata_failure_witness :
  (method read0 = js "GET"
   /\ cache cold !! url read0 = None
   /\ bucket cold !! id0 = Some blob0
   /\ (R2Get id0, true) ∈ trace (failing_at 1) (handleImage id0 read0 env0) cold
   /\ (DbSelectAlt id0, false) ∈ trace (failing_at 1) (handleImage id0 read0 env0) cold)
  /\ status (response (run (failing_at 1) (handleImage id0 read0 env0) cold).1) = 200.
Proof.
  assert (H1 : method read0 = js "GET") by reflexivity.
  assert (H2 : cache cold !! url read0 = None) by reflexivity.
  assert (H3 : bucket cold !! id0 = Some blob0) by (vm_compute; reflexivity).
  assert (H4 : (R2Get id0, true)
               ∈ trace (failing_at 1) (handleImage id0 read0 env0) cold) by in_run.
  assert (H5 : (DbSelectAlt id0, false)
               ∈ trace (failing_at 1) (handleImage id0 read0 env0) cold) by in_run.
  split; [tauto|].
  exact (proj1 (proj1 (read_survives_metadata_failure _ _ _ _ _ _ H1 H2 H3 H4 H5))).
Defined.



(** *** The background promise of a read *)

Lemma generateAltTextOnce_quiet imageId imageBytes env :
  confined (fun c => is_cache_put c = false) (fun _ => True)
           (generateAltTextOnce imageId imageBytes env).
Proof. unfold generateAltTextOnce. confine; try reflexivity; exact I. Qed.

Lemma writes_last_bind {A} key P (p : Prog A) (f : A -> Prog unit) :
  confined (fun c => is_cache_put c = false) (fun _ => True) p ->
  (forall a, writes_last key P (f a)) ->
  writes_last key P (bind p f).
Proof.
  intros Hp Hf. induction Hp; cbn [bind]; [apply Hf|].
  apply writes_last_vis; assumption.
Qed.

Lemma call_writes_last key (P : Response -> Prop) r :
  P r -> writes_last key P (call (CachePut key r)).
Proof. intros H. apply writes_last_put; [exact H | intros []; reflexivity]. Qed.

Lemma generateAndCache_writes_last imageId imageBytes cacheKey response env :
  writes_last cacheKey (rebuilt response)
              (generateAndCache imageId imageBytes cacheKey response env).
Proof.
  unfold generateAndCache. apply writes_last_bind.
  { apply generateAltTextOnce_quiet. }
  intros _. cbn [bind call]. apply writes_last_vis; [reflexivity|].
  intros [r|err]; cbn [bind call].
  - destruct (truthy (mjoin r)) eqn:Ht; apply call_writes_last.
    + right. exists (mjoin r ?? []). split; [|reflexivity].
      destruct (mjoin r) as [[|c s]|]; cbn in *; discriminate.
    + left. reflexivity.
  - apply writes_last_vis; [reflexivity|]. intros _.
    apply call_writes_last. left. reflexivity.
Qed.






(** *** The metadata gate *)

(** When the lookup of a read is not rejected and the record holds a
    description, serving the read to its end never calls the model. *)
Lemma metadata_gate O env request imageId w :
  (DbSelectAlt imageId, false) ∉ trace O (handleImage imageId request env) w ->
  truthy (description w imageId) = true ->
  Forall (fun e => is_ai_run e.1 = false)
         (served_trace O (handleImage imageId request env) w).
Proof.
  unfold served_trace, handleImage, description.
  destruct (bool_decide (method request = js "GET")); exec_cbn;
    [| intros _ _; constructor].
  destruct (cache w !! url request) as [hit|]; exec_cbn.
  { intros _ _. repeat constructor. }
  exec.
  all: try solve [intros Hno; exfalso; apply Hno; in_trace].
  all: destruct (bucket w !! imageId) as [obj|]; exec_cbn.
  all: try solve [intros Hno; exfalso; apply Hno; in_trace].
  all: try solve [intros _ _; repeat constructor].
  cbn [altTextOf].
  replace (mjoin (alt_text <$> find (by_id imageId) (images w)))
    with (find (by_id imageId) (images w) ≫= alt_text)
    by (destruct (find _ _); reflexivity).
  intros _ Ht. destruct (find (by_id imageId) (images w) ≫= alt_text) as [[|c d]|];
    try discriminate Ht.
  cbn [nullish truthy]. exec_cbn. cbn [trace_all]. exec_cbn.
  repeat constructor.
Qed.

(** C2 at its failing input: the image of the scenario has its description
    persisted; the metadata lookup of the read (the second call of the
    handler) is rejected; the read is served with the placeholder and its
    background promise calls the model again and writes the record again. *)
Example described_image_inferred_again :
  description described id0 = Some (js "A cat")
  /\ (AiRun (bytes blob0), true)
       ∈ served_trace (failing_at 1) (handleImage id0 read0 env0) described
  /\ (DbUpsertAlt id0 (js "A cat"), true)
       ∈ served_trace (failing_at 1) (handleImage id0 read0 env0) described.
Proof. split; [vm_compute; reflexivity | split; in_run]. Qed.

(** *** The shape of the cache is kept *)

Lemma effect_cache_shaped O c w :
  caches_image_headers c -> cache_shaped w -> cache_shaped (effect O c w).2.
Proof.
  intros Hc Hw. destruct (is_cache_put c) eqn:Hput.
  - destruct c; try discriminate Hput. cbn [effect snd]. intros k r0.
    cbn [with_cache cache]. rewrite lookup_insert.
    case_decide; [intros [= <-]; exact Hc | apply Hw].
  - intros k r0. rewrite (effect_cache O c w Hput). apply Hw.
Qed.

Lemma confined_cache_shaped {A} (Q : A -> Prop) O (p : Prog A) w :
  confined caches_image_headers Q p -> cache_shaped w -> cache_shaped (run O p w).2.
Proof.
  intros H. revert w. induction H as [a _|c k Hc _ IH]; intros w Hw; [exact Hw|].
  cbn [run]. unfold perform. cbn [fst snd]. apply IH.
  intros key r. cbn [record cache]. apply (effect_cache_shaped O c w Hc Hw).
Qed.

Lemma run_all_cache_shaped O tasks w :
  Forall (confined caches_image_headers (fun _ => True)) tasks ->
  cache_shaped w -> cache_shaped (run_all O tasks w).
Proof.
  intros H. revert w. induction H as [|p rest Hp _ IH]; intros w Hw; [exact Hw|].
  cbn [run_all]. apply IH. eapply confined_cache_shaped; eassumption.
Qed.

Lemma generateAndCache_shaped imageId imageBytes cacheKey response env :
  image_headers response ->
  confined caches_image_headers (fun _ => True)
           (generateAndCache imageId imageBytes cacheKey response env).
Proof.
  intros Hr. unfold generateAndCache.
  eapply confined_bind.
  { eapply confined_weaken; [| |apply generateAltTextOnce_quiet].
    - intros c Hc. destruct c; try exact I. discriminate Hc.
    - intros a Ha. exact Ha. }
  intros _ _. cbn [bind call]. apply confined_vis; [exact I|].
  intros [r|err]; cbn [bind call].
  - destruct (truthy (mjoin r)) eqn:Ht; apply confined_put; cbn [caches_image_headers].
    + apply enriched_headers. destruct (mjoin r) as [[|c s]|]; cbn in *; discriminate.
    + exact Hr.
  - apply confined_vis; [exact I|]. intros _. apply confined_put. exact Hr.
Qed.

(** A read served to its end, from a cache whose entries have one of the
    two shapes, leaves such a cache. *)
Lemma served_cache_shaped O env request imageId w :
  cache_shaped w -> cache_shaped (served O (handleImage imageId request env) w).
Proof.
  intros Hw. unfold served.
  assert (H : confined_reply caches_image_headers (handleImage imageId request env)).
  { unfold confined_reply, handleImage. confine; try exact I; cbn [background].
    all: repeat first [apply List.Forall_nil | apply List.Forall_cons].
    all: match goal with
         | |- confined _ _ (generateAndCache _ _ _ _ _) =>
             apply generateAndCache_shaped, imageResponse_headers
         | _ => apply confined_put; apply imageResponse_headers
         end. }
  apply run_all_cache_shaped.
  - apply (confined_run _ _ O _ w) in H. apply H.
  - eapply confined_cache_shaped; eassumption.
Qed.

(** ** Ingesting an image *)

Section Ingest.

Variable hostname_of : JsString -> option JsString.

(** C7. An authorised upload whose URL has a host name on the deny list
    is answered 400 without a single call to the platform: nothing is
    fetched, no blob and no record is written, the world and its history are
    as they were. *)
Theorem denied_host_rejected O env request member hostname w :
  method request = js "POST" ->
  requireBearer request env = None ->
  json request = Some member ->
  hostname_of (trim (member ?? [])) = Some hostname ->
  denied hostname = true ->
  let result := run O (handleUpload hostname_of request env) w in
  status (response result.1) = 400
  /\ background result.1 = []
  /\ trace O (handleUpload hostname_of request env) w = []
  /\ result.2 = w.
Proof.
  intros Hm Hauth Hjson Hhost Hdenied.
  unfold handleUpload, isSafeUrl.
  rewrite Hm, bool_decide_eq_true_2 by reflexivity.
  rewrite Hauth, Hjson, Hhost, Hdenied. cbn [negb].
  destruct (http_url (trim (member ?? []))); exec_cbn; repeat split; reflexivity.
Qed.


(** C5. Whenever the insert of an upload is rejected, the blob write
    before it had been fulfilled; the handler answers 503 and leaves one
    promise, the delete of that blob.  The answer is fixed before the delete
    settles.  The promise calls the delete once: fulfilled, the blob is gone;
    rejected, the failure is written to the console and nothing else
    happens. *)
Theorem insert_failure_compensated O env request imageId source w :
  (DbInsert imageId source, false)
    ∈ trace O (handleUpload hostname_of request env) w ->
  let result := run O (handleUpload hostname_of request env) w in
  (exists data mime,
      (R2Put imageId data mime source, true)
        ∈ trace O (handleUpload hostname_of request env) w)
  /\ response result.1 = jsonError (js "Database unavailable") 503
  /\ background result.1 = [rollback imageId]
  /\ forall O' w',
       (trace O' (rollback imageId) w' = [(R2Delete imageId, true)]
        /\ bucket (run O' (rollback imageId) w').2 = delete imageId (bucket w'))
       \/ (trace O' (rollback imageId) w'
           = [(R2Delete imageId, false); (Console (js "R2 rollback failed:"), true)]
           /\ bucket (run O' (rollback imageId) w').2 = bucket w').
Proof.
  assert (Hrollback : forall O' w',
    (trace O' (rollback imageId) w' = [(R2Delete imageId, true)]
     /\ bucket (run O' (rollback imageId) w').2 = delete imageId (bucket w'))
    \/ (trace O' (rollback imageId) w'
        = [(R2Delete imageId, false); (Console (js "R2 rollback failed:"), true)]
        /\ bucket (run O' (rollback imageId) w').2 = bucket w')).
  { intros O' w'. unfold rollback. exec; [right | left]; split; reflexivity. }
  unfold handleUpload.
  destruct (bool_decide (method request = js "POST")); exec_cbn; [|in_trace].
  destruct (requireBearer request env); exec_cbn; [in_trace|].
  destruct (json request) as [member|]; exec_cbn; [|in_trace].
  destruct (http_url (trim (member ?? []))); exec_cbn; [|in_trace].
  destruct (isSafeUrl hostname_of (trim (member ?? []))); exec_cbn; [|in_trace].
  exec; try solve [in_trace].
  destruct (find _ (images w)); exec_cbn; [in_trace|].
  exec; try solve [in_trace].
  match goal with |- context [remote ?O ?t ?u] => set (img := remote O t u) end.
  destruct (_ && _); exec_cbn; [|in_trace].
  destruct (bool_decide (mimeTypeOf img ∈ ALLOWED_TYPES)); exec_cbn; [|in_trace].
  destruct (MAX_IMAGE_BYTES <? _); exec_cbn; [in_trace|].
  exec; try solve [in_trace].
  - intros Hin. apply elem_of_cons in Hin as [Heq|Hin]; [discriminate Heq|].
    apply elem_of_cons in Hin as [Heq|Hin]; [discriminate Heq|].
    apply elem_of_cons in Hin as [Heq|Hin]; [discriminate Heq|].
    apply elem_of_cons in Hin as [Heq|Hin]; [discriminate Heq|].
    apply elem_of_cons in Hin as [Heq|Hin]; [|revert Hin; in_trace].
    injection Heq as -> ->.
    split; [|split; [reflexivity | split; [reflexivity | exact Hrollback]]].
    eexists _, _. do 3 apply list_elem_of_further. apply list_elem_of_here.
  - match goal with
    | |- context [db_insert ?n ?i ?u ?t] => destruct (db_insert n i u t)
    end; exec_cbn; [in_trace|].
    intros Hin. apply elem_of_cons in Hin as [Heq|Hin]; [discriminate Heq|].
    apply elem_of_cons in Hin as [Heq|Hin]; [discriminate Heq|].
    apply elem_of_cons in Hin as [Heq|Hin]; [discriminate Heq|].
    apply elem_of_cons in Hin as [Heq|Hin]; [discriminate Heq|].
    apply elem_of_cons in Hin as [Heq|Hin]; [|revert Hin; in_trace].
    injection Heq as -> ->.
    split; [|split; [reflexivity | split; [reflexivity | exact Hrollback]]].
    eexists _, _. do 3 apply list_elem_of_further. apply list_elem_of_here.
Qed.

End Ingest.

Lemma denied_host_rejected_witness :
  (method upload_local = js "POST"
   /\ requireBearer upload_local env0 = None
   /\ hostname0 (js "http://127.0.0.1:8080/admin.png") = Some (js "127.0.0.1")
   /\ denied (js "127.0.0.1") = true)
  /\ status (response (run healthy (handleUpload hostname0 upload_local env0) cold).1)
     = 400
  /\ trace healthy (handleUpload hostname0 upload_local env0) cold = [].
Proof.
  assert (H1 : method upload_local = js "POST") by reflexivity.
  assert (H2 : requireBearer upload_local env0 = None) by (vm_compute; reflexivity).
  assert (H3 : json upload_local
               = Some (Some (js " http://127.0.0.1:8080/admin.png "))) by reflexivity.
  assert (H4 : hostname0 (trim (Some (js " http://127.0.0.1:8080/admin.png ") ?? []))
               = Some (js "127.0.0.1")) by (vm_compute; reflexivity).
  assert (H5 : denied (js "127.0.0.1") = true) by (vm_compute; reflexivity).
  pose proof (denied_host_rejected hostname0 healthy env0 upload_local _ _ cold
                H1 H2 H3 H4 H5) as (Hs & _ & Ht & _).
  split; [repeat split; (reflexivity || (vm_compute; reflexivity)) |].
  split; [exact Hs | exact Ht].
Defined.


Lemma insert_failure_compensated_witness :
  (DbInsert id0 src0, false)
    ∈ trace (failing_at 4) (handleUpload hostname0 upload0 env0) empty
  /\ background (run (failing_at 4) (handleUpload hostname0 upload0 env0) empty).1
     = [rollback id0].
Proof.
  assert (H : (DbInsert id0 src0, false)
              ∈ trace (failing_at 4) (handleUpload hostname0 upload0 env0) empty)
    by in_run.
  split; [exact H|].
  exact (proj1 (proj2 (proj2
           (insert_failure_compensated hostname0 (failing_at 4) env0 upload0
              id0 src0 empty H)))).
Defined.

(** The scenario's upload, made twice from nothing: the first answers 201
    with a new id and creates one blob and one row; the second answers 200
    with the same id and creates nothing. *)
Example ingest_twice :
  let first := run healthy (handleUpload hostname0 upload0 env0) empty in
  let second := run healthy (handleUpload hostname0 upload0 env0) first.2 in
  response first.1
  = uploaded 201 id0 (js "Image uploaded " ++ [em_dash]
                      ++ js " alt-text will generate on first access")
  /\ response second.1 = uploaded 200 id0 (js "Already uploaded")
  /\ images second.2 = [mkRow id0 (Some src0) None (Some 1000) None]
  /\ bucket second.2
     = {[ id0 := mkBlob [255; 216; 255; 224] (Some (js "image/jpeg"))
                        (Some (src0, 1000)) ]}
  /\ calls_of (trace healthy (handleUpload hostname0 upload0 env0) first.2)
     = [DbSelectId src0].
Proof. cbv zeta. repeat split; vm_compute; reflexivity. Qed.

(** ** What is persisted *)

Lemma sanitised_app t row :
  sanitised t ->
  (forall a, alt_text row = Some a -> sanitiser_output a) ->
  sanitised (t ++ [row]).
Proof.
  intros Ht Hrow r a Hin Ha. apply elem_of_app in Hin as [Hin|Hin].
  - eapply Ht; eassumption.
  - apply list_elem_of_singleton in Hin. subst r. apply Hrow, Ha.
Qed.

Lemma db_insert_sanitised now i u t t' :
  db_insert now i u t = Some t' -> sanitised t -> sanitised t'.
Proof.
  unfold db_insert. case_match; [discriminate|].
  intros [= <-] Ht. apply sanitised_app; [exact Ht|].
  cbn [alt_text]. intros a Hnone. discriminate Hnone.
Qed.

Lemma db_upsert_sanitised now i alt t :
  sanitiser_output alt -> sanitised t -> sanitised (db_upsert now i alt t).
Proof.
  intros Halt Ht. unfold db_upsert. case_match.
  - intros r a Hin Ha. apply list_elem_of_fmap in Hin as (r0 & -> & Hin).
    destruct (by_id i r0).
    + cbn [alt_text] in Ha. injection Ha as <-. exact Halt.
    + eapply Ht; eassumption.
  - apply sanitised_app; [exact Ht|]. cbn [alt_text].
    intros a [= <-]. exact Halt.
Qed.

(** A call that writes only sanitised descriptions keeps the table
    sanitised. *)
Lemma effect_sanitised O c w :
  writes_sanitised c -> sanitised (images w) -> sanitised (images (effect O c w).2).
Proof.
  intros Hc Hw.
  destruct c; cbn [effect]; repeat case_match; cbn [snd images with_images
    with_cache with_bucket with_kv]; try exact Hw.
  - eapply db_insert_sanitised; eassumption.
  - apply db_upsert_sanitised; assumption.
  - destruct ns; exact Hw.
Qed.

Lemma confined_sanitised {A} (Q : A -> Prop) O (p : Prog A) w :
  confined writes_sanitised Q p ->
  sanitised (images w) -> sanitised (images (run O p w).2).
Proof.
  intros H. revert w. induction H as [a _|c k Hc _ IH]; intros w Hw; [exact Hw|].
  cbn [run]. unfold perform. cbn [fst snd]. apply IH.
  cbn [record images]. apply effect_sanitised; assumption.
Qed.

(** The same, call by call: however the calls of a promise are interleaved
    with others, the table stays sanitised. *)
Lemma confined_sanitised_steps {A} (Q : A -> Prop) O n (p : Prog A) w :
  confined writes_sanitised Q p ->
  sanitised (images w) -> sanitised (images (steps O n p w).2).
Proof.
  intros H. revert n w. induction H as [a _|c k Hc _ IH]; intros [|n] w Hw;
    try exact Hw.
  cbn [steps]. unfold perform. cbn [fst snd]. apply IH.
  cbn [record images]. apply effect_sanitised; assumption.
Qed.

Lemma run_all_sanitised O tasks w :
  Forall (confined writes_sanitised (fun _ => True)) tasks ->
  sanitised (images w) -> sanitised (images (run_all O tasks w)).
Proof.
  intros H. revert w. induction H as [|p rest Hp _ IH]; intros w Hw; [exact Hw|].
  cbn [run_all]. apply IH. eapply confined_sanitised; eassumption.
Qed.

Lemma served_sanitised O (p : Prog Reply) w :
  confined_reply writes_sanitised p ->
  sanitised (images w) -> sanitised (images (served O p w)).
Proof.
  intros H Hw. unfold served. apply run_all_sanitised.
  - apply (confined_run _ _ O p w) in H. apply H.
  - eapply confined_sanitised; eassumption.
Qed.

Lemma generateAltTextOnce_sanitised imageId imageBytes env :
  confined writes_sanitised (fun _ => True)
           (generateAltTextOnce imageId imageBytes env).
Proof.
  unfold generateAltTextOnce. confine; try exact I.
  all: split; [|eexists; reflexivity].
  all: match goal with
       | H : negb (truthy (Some ?a)) = false |- ?a <> [] =>
           apply negb_false_iff in H; apply truthy_nonempty, H
       end.
Qed.

Lemma generateAndCache_sanitised imageId imageBytes cacheKey response env :
  confined writes_sanitised (fun _ => True)
           (generateAndCache imageId imageBytes cacheKey response env).
Proof.
  unfold generateAndCache.
  eapply confined_bind; [apply generateAltTextOnce_sanitised|].
  intros _ _. confine; exact I.
Qed.

Lemma handleImage_sanitised imageId request env :
  confined_reply writes_sanitised (handleImage imageId request env).
Proof.
  unfold confined_reply, handleImage. confine; try exact I; cbn [background].
  all: repeat first [apply List.Forall_nil | apply List.Forall_cons].
  all: match goal with
       | |- confined _ _ (generateAndCache _ _ _ _ _) =>
           apply generateAndCache_sanitised
       | _ => confine; exact I
       end.
Qed.

Lemma handleUpload_sanitised hostname_of request env :
  confined_reply writes_sanitised (handleUpload hostname_of request env).
Proof.
  unfold confined_reply, handleUpload. confine; try exact I; cbn [background].
  all: repeat first [apply List.Forall_nil | apply List.Forall_cons].
  all: unfold rollback; confine; exact I.
Qed.

(** C9. The sanitiser never returns more than 500 code units, the cut
    being made on the escaped text; and a table whose descriptions are all
    (non-empty) outputs of the sanitiser is still such a table after any read
    and after any upload has been served to its end, so that every
    description it holds is at most 500 code units long. *)
Theorem descriptions_are_sanitised O hostname_of env request imageId w :
  sanitised (images w) ->
  (forall x, sanitiseAltText x = take 500 (escape (strip (trim x)))
             /\ (length (sanitiseAltText x) <= 500)%nat)
  /\ sanitised (images (served O (handleImage imageId request env) w))
  /\ sanitised (images (served O (handleUpload hostname_of request env) w))
  /\ (forall row a,
        row ∈ images (served O (handleImage imageId request env) w)
        \/ row ∈ images (served O (handleUpload hostname_of request env) w) ->
        alt_text row = Some a -> (length a <= 500)%nat).
Proof.
  intros Hw.
  assert (H1 := served_sanitised O _ w (handleImage_sanitised imageId request env) Hw).
  assert (H2 := served_sanitised O _ w
                  (handleUpload_sanitised hostname_of request env) Hw).
  split; [intros x; split; [reflexivity | apply sanitise_length]|].
  split; [exact H1|]. split; [exact H2|].
  intros row a [Hin|Hin] Ha;
    [destruct (H1 row a Hin Ha) as (_ & raw & ->)
    | destruct (H2 row a Hin Ha) as (_ & raw & ->)];
    apply sanitise_length.
Qed.

Lemma descriptions_are_sanitised_witness :
  sanitised (images cold)
  /\ sanitised (images (served healthy (handleImage id0 read0 env0) cold))
  /\ description (served healthy (handleImage id0 read0 env0) cold) id0
     = Some (js "A cat").
Proof.
  assert (H : sanitised (images cold)).
  { intros row a Hin Ha. apply list_elem_of_singleton in Hin. subst row.
    discriminate Ha. }
  split; [exact H|]. split; [|vm_compute; reflexivity].
  exact (proj1 (proj2 (descriptions_are_sanitised healthy hostname0 env0 read0 id0
                         cold H))).
Defined.

(** ** The rate limiter *)

Lemma codes_uint_codes d : codes_uint (uint_codes d) = Some d.
Proof. induction d; cbn [uint_codes codes_uint]; try rewrite IHd; reflexivity. Qed.

(** Reading back a count that was written. *)
Lemma Number_String_of n : Number (String_of n) = Some n.
Proof.
  unfold Number, String_of. rewrite codes_uint_codes. cbn [fmap option_fmap option_map].
  f_equal. apply DecimalN.Unsigned.of_to.
Qed.




Section Counting.

Variables (O : Oracle) (env : Env) (ip : JsString).
Hypothesis configured : RATE_LIMIT env = true.
Hypothesis healthy_kv : forall t, rejects O t = false.
Hypothesis one_minute : forall t, clock O t / 60000 = clock O 0 / 60000.

Local Abbreviation key := (rate_key ip (clock O 0)).





End Counting.

(** *** The handlers leave the limiter's namespace alone *)








Section Routing.

Variable hostname_of : JsString -> option JsString.
Variable dashboard : JsString.
Variable handleAudit : Request -> Env -> Prog Reply.

Local Abbreviation route := (router hostname_of dashboard handleAudit).
Local Abbreviation routes := (dispatch hostname_of dashboard handleAudit).






End Routing.




(** ** Further properties of the sanitiser *)

Lemma Forall_trimStart (P : N -> Prop) s : Forall P s -> Forall P (trimStart s).
Proof.
  induction 1 as [|c r Hc Hr IH]; cbn [trimStart]; [constructor|].
  destruct (is_ws c); [exact IH | constructor; assumption].
Qed.

Lemma Forall_trim (P : N -> Prop) s : Forall P s -> Forall P (trim s).
Proof.
  intros H. unfold trim, trimEnd.
  apply List.Forall_rev, Forall_trimStart, List.Forall_rev, Forall_trimStart, H.
Qed.

Lemma plain_forallb s :
  plain s -> forallb (fun d => negb (markup d) && negb (d =? amp)) s = true.
Proof.
  induction 1 as [|c r Hc Hr IH]; [reflexivity|].
  cbn [forallb]. rewrite IH, andb_true_r.
  rewrite !not_elem_of_cons in Hc. destruct Hc as (H1 & H2 & H3 & H4 & H5 & H6 & _).
  unfold markup.
  rewrite (proj2 (N.eqb_neq _ _) H1), (proj2 (N.eqb_neq _ _) H2),
    (proj2 (N.eqb_neq _ _) H3), (proj2 (N.eqb_neq _ _) H4),
    (proj2 (N.eqb_neq _ _) H5), (proj2 (N.eqb_neq _ _) H6).
  reflexivity.
Qed.

(** X1. The sanitised text carries no markup: none of its code units is
    [<], [>], a double quote, an apostrophe or a backtick, whatever the raw
    text was. *)
Theorem sanitised_text_is_inert raw :
  Forall (fun c => c ∉ [lt; gt; quot; apos; backtick]) (sanitiseAltText raw).
Proof.
  pose proof (sanitise_no_markup raw) as H.
  rewrite forallb_forall in H. apply Forall_forall. intros c Hc.
  apply list_elem_of_In, H in Hc. unfold markup in Hc.
  rewrite !not_elem_of_cons. 
  destruct (N.eqb_spec c lt), (N.eqb_spec c gt), (N.eqb_spec c quot),
    (N.eqb_spec c apos), (N.eqb_spec c backtick); try discriminate Hc.
  repeat split; try assumption. apply not_elem_of_nil.
Qed.

Lemma strip_no_gt s : has_gt s = false -> strip s = s.
Proof.
  induction s as [|c r IH]; [reflexivity|].
  unfold has_gt. cbn [existsb strip]. intros H.
  apply orb_false_iff in H as [_ H]. fold (has_gt r) in H.
  rewrite H, andb_false_r, IH by exact H. reflexivity.
Qed.

Lemma strip_skip_tagless n :
  forall s, (length s <= n)%nat -> tagless (strip s) = true /\ tagless (skip s) = true.
Proof.
  induction n as [|n IH]; intros [|c r] Hlen; cbn [length] in Hlen;
    try (split; reflexivity); try lia.
  destruct (IH r ltac:(lia)) as [Hstrip Hskip].
  split.
  - cbn [strip]. destruct (N.eqb_spec c lt) as [->|Hc]; cbn [andb].
    + destruct (has_gt r) eqn:Hgt; [exact Hskip|].
      cbn [tagless]. rewrite (strip_no_gt r Hgt), Hgt. rewrite strip_no_gt in Hstrip by exact Hgt.
      rewrite Hstrip. rewrite orb_true_r. reflexivity.
    + cbn [tagless]. rewrite (proj2 (N.eqb_neq _ _) Hc), Hstrip. reflexivity.
  - cbn [skip]. destruct (c =? gt); assumption.
Qed.

Lemma tagless_strip s : tagless s = true -> strip s = s.
Proof.
  induction s as [|c r IH]; [reflexivity|].
  cbn [tagless strip]. intros H. apply andb_true_iff in H as [H Hr].
  rewrite IH by exact Hr.
  destruct (c =? lt), (has_gt r); try reflexivity; discriminate H.
Qed.

Lemma tagless_split s a b : tagless s = true -> s = a ++ lt :: b -> gt ∉ b.
Proof.
  revert s. induction a as [|x a IH]; intros s H ->.
  - cbn [app tagless] in H. apply andb_true_iff in H as [H _].
    rewrite N.eqb_refl in H. cbn [negb orb] in H.
    apply negb_true_iff in H. intros Hin.
    unfold has_gt in H. 
    assert (existsb (N.eqb gt) b = true) as E; [|congruence].
    apply existsb_exists. exists gt. split; [apply list_elem_of_In, Hin | apply N.eqb_refl].
  - cbn [app tagless] in H. apply andb_true_iff in H as [_ H].
    exact (IH _ H eq_refl).
Qed.

(** X2. One pass of the tag removal removes every tag: in what is left no
    [<] is followed, however far, by a [>], and a second pass changes
    nothing. *)
Theorem strip_leaves_no_tag s :
  (forall a b, strip s = a ++ lt :: b -> gt ∉ b)
  /\ strip (strip s) = strip s.
Proof.
  destruct (strip_skip_tagless (length s) s (le_n _)) as [H _].
  split; [intros a b; apply tagless_split, H | apply tagless_strip, H].
Qed.

(** X3. On a text with none of the six special characters the sanitiser
    only trims and cuts: the result is the first 500 code units of the
    trimmed text. *)
Theorem sanitise_plain_text x :
  plain x -> sanitiseAltText x = take ALT_TEXT_MAX_LEN (trim x).
Proof.
  intros H. apply (Forall_trim _ x), plain_forallb in H.
  unfold sanitiseAltText.
  rewrite (strip_no_lt (trim x)), (escape_clean (trim x)); [reflexivity | exact H |].
  revert H. apply forallb_weaken. intros c Hc.
  apply andb_true_iff in Hc as [Hc _]. unfold markup in Hc.
  destruct (c =? lt); [discriminate Hc | reflexivity].
Qed.

Lemma sanitise_plain_text_witness :
  plain (js "  A red bird  ")
  /\ sanitiseAltText (js "  A red bird  ") = take ALT_TEXT_MAX_LEN (trim (js "  A red bird  ")).
Proof.
  assert (H : plain (js "  A red bird  ")).
  { unfold plain. apply Forall_forall. intros c Hc Hin.
    vm_compute in Hc. decide_in Hc; subst c; decide_in Hin. }
  split; [exact H | exact (sanitise_plain_text _ H)].
Defined.

(** ** Further properties of the deny list of [isSafeUrl] *)

Lemma uint_codes_digits d : Forall (fun c => is_digit c = true) (uint_codes d).
Proof. induction d; cbn [uint_codes]; constructor; (reflexivity || assumption). Qed.

Lemma String_of_digits n : Forall (fun c => is_digit c = true) (String_of n).
Proof. apply uint_codes_digits. Qed.

Lemma String_of_inj a b : String_of a = String_of b -> a = b.
Proof.
  intros H. pose proof (Number_String_of a) as Ha.
  rewrite H, Number_String_of in Ha. congruence.
Qed.

Lemma String_of_nonempty n : String_of n <> [].
Proof.
  unfold String_of. destruct n as [|p]; [discriminate|].
  cbn [N.to_uint]. pose proof (DecimalPos.Unsigned.to_uint_nonnil p) as H.
  destruct (Pos.to_uint p); [congruence | discriminate..].
Qed.

(** A decimal has no leading zero, but for zero itself. *)
Lemma String_of_leading_zero n r : String_of n = 48 :: r -> n = 0.
Proof.
  destruct n as [|p]; [reflexivity|]. unfold String_of. cbn [N.to_uint]. intros H.
  exfalso.
  assert (Hnorm : Decimal.unorm (Pos.to_uint p) = Pos.to_uint p).
  { rewrite <- DecimalPos.Unsigned.to_of, DecimalPos.Unsigned.of_to. reflexivity. }
  destruct (Pos.to_uint p) as [|u|u|u|u|u|u|u|u|u|u] eqn:E; try discriminate H.
  rewrite DecimalFacts.unorm_D0 in Hnorm. unfold Decimal.unorm in Hnorm.
  destruct (Decimal.nzhead u) eqn:Eu; try discriminate Hnorm.
  - apply (DecimalPos.Unsigned.to_uint_nonzero p). rewrite E. symmetry. exact Hnorm.
  - exact (DecimalFacts.nzhead_nonzero _ _ Eu).
Qed.

Lemma digit_not_dot x : is_digit x = true -> (46 =? x) = false /\ (x =? 46) = false.
Proof.
  unfold is_digit. intros H. apply andb_true_iff in H as [H _].
  apply N.leb_le in H. split; apply N.eqb_neq; lia.
Qed.

(** A prefix that ends in a dot against a text whose first dot comes after
    digits: the digits are those of the prefix. *)
Lemma startsWith_dot p q s rest :
  Forall (fun c => is_digit c = true) p ->
  Forall (fun c => is_digit c = true) s ->
  startsWith (p ++ 46 :: q) (s ++ 46 :: rest) = true
  <-> s = p /\ startsWith q rest = true.
Proof.
  intros Hp. revert s. induction Hp as [|y p Hy Hp IH]; intros s Hs.
  - destruct Hs as [|x s Hx Hs]; cbn [app startsWith].
    + rewrite N.eqb_refl. cbn [andb]. intuition.
    + destruct (digit_not_dot x Hx) as [-> _]. cbn [andb].
      split; [discriminate | intros [E _]; discriminate E].
  - destruct Hs as [|x s Hx Hs]; cbn [app startsWith].
    + destruct (digit_not_dot y Hy) as [_ ->]. cbn [andb].
      split; [discriminate | intros [E _]; discriminate E].
    + rewrite andb_true_iff, (IH s Hs), N.eqb_eq.
      split; [intros (-> & -> & H) | intros (E & H); injection E as -> ->];
        repeat split; (reflexivity || assumption).
Qed.

Lemma dotted_eq a b c d :
  dotted a b c d
  = String_of a ++ 46 :: (String_of b ++ 46 :: (String_of c ++ 46 :: String_of d)).
Proof. reflexivity. Qed.

Lemma startsWith_number n q a rest :
  startsWith (String_of n ++ 46 :: q) (String_of a ++ 46 :: rest) = true
  <-> a = n /\ startsWith q rest = true.
Proof.
  rewrite startsWith_dot by apply String_of_digits.
  split; intros [H H']; (split; [|exact H']); [apply String_of_inj, H | subst; reflexivity].
Qed.

Lemma dotted_loopback a b c d :
  startsWith (js "127.") (dotted a b c d) = true <-> a = 127.
Proof.
  rewrite dotted_eq. change (js "127.") with (String_of 127 ++ 46 :: []).
  rewrite startsWith_number. cbn [startsWith]. intuition.
Qed.

Lemma dotted_ten a b c d :
  startsWith (js "10.") (dotted a b c d) = true <-> a = 10.
Proof.
  rewrite dotted_eq. change (js "10.") with (String_of 10 ++ 46 :: []).
  rewrite startsWith_number. cbn [startsWith]. intuition.
Qed.

Lemma dotted_link_local a b c d :
  startsWith (js "169.254.") (dotted a b c d) = true <-> a = 169 /\ b = 254.
Proof.
  rewrite dotted_eq.
  change (js "169.254.") with (String_of 169 ++ 46 :: (String_of 254 ++ 46 :: [])).
  rewrite !startsWith_number. cbn [startsWith]. intuition.
Qed.

Lemma dotted_class_c a b c d :
  startsWith (js "192.168.") (dotted a b c d) = true <-> a = 192 /\ b = 168.
Proof.
  rewrite dotted_eq.
  change (js "192.168.") with (String_of 192 ++ 46 :: (String_of 168 ++ 46 :: [])).
  rewrite !startsWith_number. cbn [startsWith]. intuition.
Qed.

Lemma dotted_unspecified a b c d :
  startsWith (js "0.0.0.0") (dotted a b c d) = true
  <-> a = 0 /\ b = 0 /\ c = 0 /\ d = 0.
Proof.
  rewrite dotted_eq.
  change (js "0.0.0.0")
    with (String_of 0 ++ 46 :: (String_of 0 ++ 46 :: (String_of 0 ++ 46 :: [48]))).
  rewrite !startsWith_number.
  assert (Hd : startsWith [48] (String_of d) = true <-> d = 0).
  { split; [|intros ->; reflexivity].
    destruct (String_of d) as [|x r] eqn:E; cbn [startsWith]; [discriminate|].
    rewrite andb_true_r. intros Hx. apply N.eqb_eq in Hx. subst x.
    exact (String_of_leading_zero d r E). }
  rewrite Hd. intuition.
Qed.

Lemma dotted_head a b c d :
  exists x r, dotted a b c d = x :: r /\ is_digit x = true.
Proof.
  rewrite dotted_eq. pose proof (String_of_digits a) as H.
  pose proof (String_of_nonempty a) as Hne.
  destruct H as [|x r Hx _]; [congruence|].
  exists x, (r ++ 46 :: (String_of b ++ 46 :: (String_of c ++ 46 :: String_of d))).
  split; [reflexivity | exact Hx].
Qed.

Lemma dotted_not_named a b c d :
  startsWith_i (js "localhost") (dotted a b c d) = false
  /\ startsWith (js "::1") (dotted a b c d) = false.
Proof.
  destruct (dotted_head a b c d) as (x & r & -> & Hx).
  unfold is_digit in Hx. apply andb_true_iff in Hx as [H1 H2].
  apply N.leb_le in H1, H2.
  split.
  - change (js "localhost") with (108 :: js "ocalhost"). cbn [startsWith_i].
    assert (E : fold_case x = x).
    { unfold fold_case. destruct (N.leb_spec 65 x); [lia | reflexivity]. }
    rewrite E. change (fold_case 108) with 108.
    replace (108 =? x) with false; [reflexivity|]. symmetry. apply N.eqb_neq. lia.
  - change (js "::1") with (58 :: js ":1"). cbn [startsWith].
    replace (58 =? x) with false; [reflexivity|]. symmetry. apply N.eqb_neq. lia.
Qed.

(** The numbers whose decimal is matched by [1[6-9]|2\d|3[01]]. *)
Lemma sixteen_to_thirty_one_spec b :
  16 <= b <= 31
  <-> exists x y, String_of b = [x; y] /\ sixteen_to_thirty_one x y = true.
Proof.
  split.
  - intros H.
    assert (E : b ∈ [16; 17; 18; 19; 20; 21; 22; 23; 24; 25; 26; 27; 28; 29; 30; 31]).
    { rewrite !elem_of_cons. lia. }
    repeat (apply elem_of_cons in E as [->|E];
            [eexists _, _; split; reflexivity|]).
    apply elem_of_nil in E. destruct E.
  - intros (x & y & E & H). unfold sixteen_to_thirty_one, is_digit in H.
    rewrite !orb_true_iff, !andb_true_iff, ?orb_true_iff, !N.eqb_eq, !N.leb_le in H.
    assert (Hb : forall n, String_of b = String_of n -> b = n)
      by (intros n; apply String_of_inj).
    destruct H as [[((-> & H1) & H2)|(-> & H1 & H2)]|(-> & [-> | ->])].
    + assert (Hy : y = 54 \/ y = 55 \/ y = 56 \/ y = 57) by lia.
      destruct Hy as [-> | [-> | [-> | ->]]];
        [ rewrite (Hb 16 E) | rewrite (Hb 17 E) | rewrite (Hb 18 E)
        | rewrite (Hb 19 E) ]; lia.
    + assert (Hy : y = 48 \/ y = 49 \/ y = 50 \/ y = 51 \/ y = 52 \/ y = 53
                   \/ y = 54 \/ y = 55 \/ y = 56 \/ y = 57) by lia.
      destruct Hy as [-> | [-> | [-> | [-> | [-> | [-> | [-> | [-> | [-> | ->]]]]]]]]];
        [ rewrite (Hb 20 E) | rewrite (Hb 21 E) | rewrite (Hb 22 E)
        | rewrite (Hb 23 E) | rewrite (Hb 24 E) | rewrite (Hb 25 E)
        | rewrite (Hb 26 E) | rewrite (Hb 27 E) | rewrite (Hb 28 E)
        | rewrite (Hb 29 E) ]; lia.
    + rewrite (Hb 30 E). lia.
    + rewrite (Hb 31 E). lia.
Qed.

Lemma dotted_class_b a b c d :
  class_b (dotted a b c d) = true <-> a = 172 /\ 16 <= b <= 31.
Proof.
  unfold class_b. rewrite andb_true_iff.
  assert (Ha : startsWith (js "172.") (dotted a b c d) = true <-> a = 172).
  { rewrite dotted_eq. change (js "172.") with (String_of 172 ++ 46 :: []).
    rewrite startsWith_number. cbn [startsWith]. intuition. }
  rewrite Ha.
  split; intros [-> H]; (split; [reflexivity|]); revert H;
    rewrite dotted_eq; change (String_of 172) with [49; 55; 50];
    rewrite sixteen_to_thirty_one_spec;
    pose proof (String_of_digits b) as Hb;
    pose proof (String_of_nonempty b) as Hnb;
    pose proof (String_of_digits c) as Hc;
    pose proof (String_of_nonempty c) as Hnc;
    destruct Hc as [|u cs Hu _]; try congruence;
    destruct Hb as [|x ? Hx [|y ? Hy [|z ? Hz _]]]; try congruence;
    cbn [app drop].
  - destruct (digit_not_dot u Hu) as [_ ->]. rewrite andb_false_r. discriminate.
  - rewrite N.eqb_refl, andb_true_r. intros H. exists x, y. split; [reflexivity | exact H].
  - destruct (digit_not_dot z Hz) as [_ ->]. rewrite andb_false_r. discriminate.
  - intros (x' & y' & E & _). discriminate E.
  - intros (x' & y' & [= <- <-] & H). rewrite N.eqb_refl, andb_true_r. exact H.
  - intros (x' & y' & E & _). discriminate E.
Qed.

(** X4. On the dotted-decimal text of an IPv4 address the deny list of
    [isSafeUrl] is exact: the host name is denied if and only if the address
    is the loopback net 127/8, the unspecified address 0.0.0.0, link-local
    169.254/16, or private 10/8, 172.16/12 or 192.168/16. *)
Theorem denied_dotted_decimal a b c d :
  denied (dotted a b c d) = true <-> reserved a b c d.
Proof.
  unfold denied, reserved.
  destruct (dotted_not_named a b c d) as [-> ->].
  rewrite !orb_true_iff, dotted_loopback, dotted_unspecified, dotted_link_local,
    dotted_ten, dotted_class_b, dotted_class_c.
  intuition discriminate.
Qed.

Lemma startsWith_app p h s : startsWith p h = true -> startsWith p (h ++ s) = true.
Proof.
  revert h. induction p as [|a p IH]; intros [|b h] H; cbn [startsWith app] in *;
    try reflexivity; try discriminate H.
  apply andb_true_iff in H as [-> H]. exact (IH h H).
Qed.

Lemma startsWith_i_app p h s :
  startsWith_i p h = true -> startsWith_i p (h ++ s) = true.
Proof.
  revert h. induction p as [|a p IH]; intros [|b h] H; cbn [startsWith_i app] in *;
    try reflexivity; try discriminate H.
  apply andb_true_iff in H as [-> H]. exact (IH h H).
Qed.

Lemma class_b_app h s : class_b h = true -> class_b (h ++ s) = true.
Proof.
  unfold class_b. intros H. apply andb_true_iff in H as [H1 H2].
  rewrite (startsWith_app _ h s H1). cbn [andb].
  destruct h as [|a [|b [|c [|d [|e [|f [|g h]]]]]]]; cbn [drop app] in *;
    try discriminate H2; try discriminate H1. exact H2.
Qed.

(** X5. The tests of the deny list are anchored at the start of the host
    name only: whatever extends a denied host name is denied as well, so a
    registered name such as localhost.example.com or 10.example.com is
    refused like the address it begins with. *)
Theorem denied_extends hostname s :
  denied hostname = true -> denied (hostname ++ s) = true.
Proof.
  unfold denied. intros H. rewrite !orb_true_iff in H.
  destruct H as [[[[[[[H|H]|H]|H]|H]|H]|H]|H];
    [ apply (startsWith_i_app _ _ s) in H
    | apply (startsWith_app _ _ s) in H
    | apply (startsWith_app _ _ s) in H
    | apply (startsWith_app _ _ s) in H
    | apply (startsWith_app _ _ s) in H
    | apply (startsWith_app _ _ s) in H
    | apply (class_b_app _ s) in H
    | apply (startsWith_app _ _ s) in H ];
    rewrite H; rewrite ?orb_true_r; reflexivity.
Qed.

Lemma denied_extends_witness :
  denied (js "localhost") = true /\ denied (js "localhost" ++ js ".example.com") = true.
Proof.
  assert (H : denied (js "localhost") = true) by (vm_compute; reflexivity).
  split; [exact H | exact (denied_extends _ (js ".example.com") H)].
Defined.

(** ** Further properties of the ingest *)

Lemma requireBearer_authorised request env :
  requireBearer request env = None <-> authorised request env.
Proof.
  unfold requireBearer, authorised.
  destruct (ADMIN_TOKEN env) as [[|c token]|]; cbn [truthy negb nullish].
  - split; [discriminate | intros (t & Hne & [= <-] & _); congruence].
  - case_bool_decide as Hb.
    + split; [intros _ | reflexivity].
      exists (c :: token). split; [discriminate|]. split; [reflexivity|].
      destruct (authorization request); cbn [nullish] in Hb;
        [congruence | discriminate Hb].
    + split; [discriminate|]. intros (t & _ & [= <-] & Ha).
      exfalso. apply Hb. rewrite Ha. reflexivity.
  - split; [discriminate | intros (t & _ & E & _); discriminate E].
Qed.

Lemma requireBearer_status request env r :
  requireBearer request env = Some r -> status r = 500 \/ status r = 401.
Proof.
  unfold requireBearer. destruct (negb _); [intros [= <-]; left; reflexivity|].
  case_bool_decide; [discriminate | intros [= <-]; right; reflexivity].
Qed.

Lemma find_app_new {A} (f : A -> bool) t x :
  existsb f t = false -> f x = true -> List.find f (t ++ [x]) = Some x.
Proof.
  induction t as [|y t IH]; cbn [existsb app List.find]; intros H Hx.
  - rewrite Hx. reflexivity.
  - apply orb_false_iff in H as [-> H]. exact (IH H Hx).
Qed.

Section IngestOutcomes.

Variable hostname_of : JsString -> option JsString.

Local Abbreviation ingest := (handleUpload hostname_of).

(** X6. The bearer check of an upload passes exactly when the secret is
    configured, not empty, and the Authorization header is the word Bearer, a
    space and the secret.  Any other upload is turned away (405, 500 or 401)
    before a single call to the platform: no lookup, no fetch, no write. *)
Theorem upload_needs_bearer O env request w :
  (requireBearer request env = None <-> authorised request env)
  /\ (~ authorised request env ->
      let result := run O (ingest request env) w in
      status (response result.1) ∈ [405; 500; 401]
      /\ background result.1 = []
      /\ trace O (ingest request env) w = []
      /\ result.2 = w).
Proof.
  split; [apply requireBearer_authorised|].
  intros Hno. unfold handleUpload.
  destruct (bool_decide (method request = js "POST")); exec_cbn.
  - destruct (requireBearer request env) as [r|] eqn:E.
    + exec_cbn. repeat split; try reflexivity.
      destruct (requireBearer_status _ _ _ E) as [-> | ->]; in_run.
    + apply requireBearer_authorised in E. contradiction.
  - repeat split; try reflexivity. in_run.
Qed.

(** An upload that is turned away: the answer is not 201 and nothing was
    written, or the insert was rejected. *)
Ltac refused :=
  split; [repeat split |];
  left; split; [cbn [status withCors jsonError methodNotAllowed uploaded]; discriminate |];
  split; [reflexivity |];
  first [ intros _; split; reflexivity
        | let H := fresh in intros H; exfalso; eapply H; in_run ].

(** What an upload leaves behind: nothing in the table unless it answers
    201, and then the facts of the record it created. *)
Lemma upload_outcome O env request w :
  let result := run O (ingest request env) w in
  (cache result.2 = cache w /\ rate_limit_kv result.2 = rate_limit_kv w
   /\ ai_quota_kv result.2 = ai_quota_kv w)
  /\ ((status (response result.1) <> 201
       /\ images result.2 = images w
       /\ ((forall i u, (DbInsert i u, false) ∉ trace O (ingest request env) w) ->
           bucket result.2 = bucket w /\ background result.1 = []))
      \/ (exists member imageId img now now',
            method request = js "POST"
            /\ requireBearer request env = None
            /\ json request = Some member
            /\ http_url (trim (member ?? [])) = true
            /\ isSafeUrl hostname_of (trim (member ?? [])) = true
            /\ existsb (by_source (trim (member ?? []))) (images w) = false
            /\ existsb (by_id imageId) (images w) = false
            /\ mimeTypeOf img ∈ ALLOWED_TYPES
            /\ N.of_nat (length (f_payload img)) <= MAX_IMAGE_BYTES
            /\ images result.2
               = images w ++ [mkRow imageId (Some (trim (member ?? []))) None (Some now) None]
            /\ bucket result.2
               = <[imageId := mkBlob (f_payload img) (Some (mimeTypeOf img))
                                 (Some (trim (member ?? []), now'))]> (bucket w)
            /\ result.1 = mkReply (uploaded 201 imageId CREATED) [])).
Proof.
  unfold handleUpload.
  destruct (bool_decide (method request = js "POST")) eqn:Hm; exec_cbn; [|refused].
  apply bool_decide_eq_true_1 in Hm.
  destruct (requireBearer request env) as [r|] eqn:Hauth; exec_cbn.
  { split; [repeat split|]. left. split; [|split; [reflexivity | intros _; split; reflexivity]].
    destruct (requireBearer_status _ _ _ Hauth) as [-> | ->]; discriminate. }
  destruct (json request) as [member|] eqn:Hjson; exec_cbn; [|refused].
  destruct (http_url (trim (member ?? []))) eqn:Hurl; exec_cbn; [|refused].
  destruct (isSafeUrl hostname_of (trim (member ?? []))) eqn:Hsafe; exec_cbn; [|refused].
  exec; try solve [refused].
  destruct (find _ (images w)) eqn:Hfind; exec_cbn; [refused|].
  exec; try solve [refused].
  match goal with |- context [remote ?O ?t ?u] => set (img := remote O t u) end.
  destruct (_ && _) eqn:Hst; exec_cbn; [|refused].
  destruct (bool_decide (mimeTypeOf img ∈ ALLOWED_TYPES)) eqn:Hmime; exec_cbn; [|refused].
  destruct (MAX_IMAGE_BYTES <? _) eqn:Hsize; exec_cbn; [refused|].
  exec; try solve [refused].
  match goal with
  | |- context [db_insert ?n ?i ?u ?t] => destruct (db_insert n i u t) as [t'|] eqn:Hins
  end; exec_cbn; [|refused].
  split; [repeat split|]. right.
  unfold db_insert in Hins.
  destruct (existsb (by_id _) (images w)) eqn:Hid; [discriminate Hins|].
  destruct (existsb (by_source _) (images w)) eqn:Hsrc; [discriminate Hins|].
  injection Hins as <-.
  eexists member, _, img, _, _.
  repeat split; try reflexivity; try assumption.
  - apply bool_decide_eq_true in Hmime. exact Hmime.
  - apply N.ltb_ge, Hsize.
Qed.

(** X7. An upload writes only when it succeeds.  Unless it answers 201 the
    table is as it was, and so is the bucket unless the insert was rejected
    (the case of the compensating delete).  When it answers 201 it has
    appended exactly one record, without a description, for a source URL the
    table did not hold, and stored its blob with an allowed type and at most
    10 MB.  It never touches the cache or the two KV namespaces. *)
Theorem upload_writes_on_success_only O env request w :
  let result := run O (ingest request env) w in
  (cache result.2 = cache w /\ rate_limit_kv result.2 = rate_limit_kv w
   /\ ai_quota_kv result.2 = ai_quota_kv w)
  /\ (status (response result.1) <> 201 ->
      images result.2 = images w
      /\ ((forall i u, (DbInsert i u, false) ∉ trace O (ingest request env) w) ->
          bucket result.2 = bucket w /\ background result.1 = []))
  /\ (status (response result.1) = 201 ->
      exists imageId sourceUrl blob now,
        images result.2 = images w ++ [mkRow imageId (Some sourceUrl) None (Some now) None]
        /\ List.find (by_source sourceUrl) (images w) = None
        /\ bucket result.2 = <[imageId := blob]> (bucket w)
        /\ (exists mime, contentType blob = Some mime /\ mime ∈ ALLOWED_TYPES)
        /\ N.of_nat (length (bytes blob)) <= MAX_IMAGE_BYTES
        /\ response result.1 = uploaded 201 imageId CREATED
        /\ background result.1 = []).
Proof.
  destruct (upload_outcome O env request w) as [Hframe [Hno | Hyes]].
  - split; [exact Hframe|]. destruct Hno as (Hs & Hrest).
    split; [intros _; exact Hrest | intros H; contradiction].
  - split; [exact Hframe|].
    destruct Hyes as (member & imageId & img & now & now' & _ & _ & _ & _ & _
                      & Hsrc & _ & Hmime & Hsize & Hi & Hb & Hr).
    split.
    + intros H. exfalso. apply H. rewrite Hr. reflexivity.
    + intros _. eexists imageId, _, _, now.
      split; [exact Hi|]. split.
      { destruct (find _ (images w)) eqn:E; [|reflexivity].
        apply find_some in E as [Hin Hp].
        assert (existsb (by_source (trim (member ?? []))) (images w) = true) as E'
          by (apply existsb_exists; eauto).
        congruence. }
      split; [exact Hb|]. cbn [contentType bytes].
      split; [eauto|]. split; [exact Hsize|]. rewrite Hr. split; reflexivity.
Qed.

(** An upload of a source URL the table holds, with the lookup fulfilled. *)
Lemma upload_existing O env request member row w :
  method request = js "POST" ->
  requireBearer request env = None ->
  json request = Some member ->
  http_url (trim (member ?? [])) = true ->
  isSafeUrl hostname_of (trim (member ?? [])) = true ->
  List.find (by_source (trim (member ?? []))) (images w) = Some row ->
  (forall u, (DbSelectId u, false) ∉ trace O (ingest request env) w) ->
  run O (ingest request env) w
  = (mkReply (uploaded 200 (id row) (js "Already uploaded")) [],
     record (DbSelectId (trim (member ?? [])), true) w).
Proof.
  intros Hm Hauth Hjson Hurl Hsafe Hfind.
  unfold handleUpload.
  rewrite Hm, bool_decide_eq_true_2 by reflexivity.
  rewrite Hauth, Hjson, Hurl, Hsafe. cbn [negb].
  exec; rewrite ?Hfind; exec_cbn.
  - intros H. exfalso. eapply H. in_run.
  - reflexivity.
Qed.

(** X8. Uploading is idempotent on the source URL: once an upload has
    answered 201 with an id, the same request, whenever its lookup is
    fulfilled, answers 200 with that id, makes that lookup and no other
    call, and leaves table and bucket as the first upload left them. *)
Theorem repeated_upload_same_id O env request w w' :
  status (response (run O (ingest request env) w).1) = 201 ->
  images w' = images (run O (ingest request env) w).2 ->
  (forall u, (DbSelectId u, false) ∉ trace O (ingest request env) w') ->
  exists imageId sourceUrl,
    response (run O (ingest request env) w).1 = uploaded 201 imageId CREATED
    /\ run O (ingest request env) w'
       = (mkReply (uploaded 200 imageId (js "Already uploaded")) [],
          record (DbSelectId sourceUrl, true) w').
Proof.
  intros Hs Hsame Hok.
  destruct (upload_outcome O env request w) as [_ [(Hno & _) | Hyes]];
    [contradiction|].
  destruct Hyes as (member & imageId & img & now & now' & Hm & Hauth & Hjson & Hurl
                    & Hsafe & Hsrc & _ & _ & _ & Hi & _ & Hr).
  exists imageId, (trim (member ?? [])).
  split; [rewrite Hr; reflexivity|].
  rewrite (upload_existing O env request member
             (mkRow imageId (Some (trim (member ?? []))) None (Some now) None) w'
             Hm Hauth Hjson Hurl Hsafe); [reflexivity | | exact Hok].
  rewrite Hsame, Hi. apply find_app_new; [exact Hsrc|].
  unfold by_source. cbn [source_url]. apply bool_decide_eq_true_2. reflexivity.
Qed.

(** X27. An authorised upload is validated before anything is touched:
    when the body is not JSON, when its [url] member is missing or is not an
    http or https URL, or when the URL has no host name the platform can
    parse, the answer is 400 and no call is made: no lookup, no fetch, no
    write. *)
Theorem upload_rejects_malformed O env request w :
  method request = js "POST" ->
  requireBearer request env = None ->
  (json request = None
   \/ exists member,
        json request = Some member
        /\ (http_url (trim (member ?? [])) = false
            \/ hostname_of (trim (member ?? [])) = None)) ->
  let result := run O (ingest request env) w in
  status (response result.1) = 400
  /\ background result.1 = []
  /\ trace O (ingest request env) w = []
  /\ result.2 = w.
Proof.
  intros Hm Hauth Hbad. unfold handleUpload, isSafeUrl.
  rewrite Hm, bool_decide_eq_true_2 by reflexivity. rewrite Hauth.
  destruct Hbad as [-> | (member & -> & [Hurl | Hhost])].
  - exec_cbn. repeat split; reflexivity.
  - rewrite Hurl. exec_cbn. repeat split; reflexivity.
  - rewrite Hhost. destruct (http_url (trim (member ?? []))); exec_cbn;
      repeat split; reflexivity.
Qed.

End IngestOutcomes.

Lemma upload_rejects_malformed_witness :
  (method upload_ftp = js "POST" /\ requireBearer upload_ftp env0 = None
   /\ http_url (trim (Some (js "ftp://example.com/a.jpg") ?? [])) = false)
  /\ status (response (run healthy (handleUpload hostname0 upload_ftp env0) cold).1)
     = 400
  /\ trace healthy (handleUpload hostname0 upload_ftp env0) cold = [].
Proof.
  assert (H1 : method upload_ftp = js "POST") by reflexivity.
  assert (H2 : requireBearer upload_ftp env0 = None) by (vm_compute; reflexivity).
  assert (H3 : http_url (trim (Some (js "ftp://example.com/a.jpg") ?? [])) = false)
    by (vm_compute; reflexivity).
  split; [repeat split; assumption|].
  destruct (upload_rejects_malformed hostname0 healthy env0 upload_ftp cold H1 H2)
    as (Hs & _ & Ht & _).
  { right. exists (Some (js "ftp://example.com/a.jpg")). split; [reflexivity|].
    left. exact H3. }
  split; [exact Hs | exact Ht].
Defined.

Lemma upload_needs_bearer_witness :
  ~ authorised upload_guess env0
  /\ trace healthy (handleUpload hostname0 upload_guess env0) cold = []
  /\ status (response (run healthy (handleUpload hostname0 upload_guess env0) cold).1)
     = 401.
Proof.
  assert (H : ~ authorised upload_guess env0).
  { intros (t & _ & [= <-] & E). vm_compute in E. discriminate E. }
  split; [exact H|].
  split; [|vm_compute; reflexivity].
  exact (proj1 (proj2 (proj2
           (proj2 (upload_needs_bearer hostname0 healthy env0 upload_guess cold) H)))).
Defined.

Lemma repeated_upload_same_id_witness :
  status (response (run healthy (handleUpload hostname0 upload0 env0) empty).1) = 201
  /\ exists imageId sourceUrl,
       response (run healthy (handleUpload hostname0 upload0 env0) empty).1
       = uploaded 201 imageId CREATED
       /\ run healthy (handleUpload hostname0 upload0 env0)
            (run healthy (handleUpload hostname0 upload0 env0) empty).2
          = (mkReply (uploaded 200 imageId (js "Already uploaded")) [],
             record (DbSelectId sourceUrl, true)
               (run healthy (handleUpload hostname0 upload0 env0) empty).2).
Proof.
  assert (H1 : status (response (run healthy (handleUpload hostname0 upload0 env0) empty).1)
               = 201) by (vm_compute; reflexivity).
  split; [exact H1|].
  apply (repeated_upload_same_id hostname0 healthy env0 upload0 empty _ H1 eq_refl).
  intros u Hin. vm_compute in Hin. decide_in Hin.
Defined.

(** ** Further properties of the read path *)

Lemma writes_last_run key P O p w :
  writes_last key P p ->
  exists r, P r /\ cache (run O p w).2 = <[key := r]> (cache w).
Proof.
  intros H. revert w. induction H as [r k Hr Hk|c k Hc Hk IH]; intros w.
  - cbn [run]. unfold perform. cbn [effect fst snd]. rewrite Hk. cbn [run snd].
    exists r. split; [exact Hr | reflexivity].
  - cbn [run]. destruct (perform O c w) as [x w'] eqn:Hp.
    destruct (IH x w') as (r & Hr & E). exists r. split; [exact Hr|].
    rewrite E. f_equal. change w' with (x, w').2. rewrite <- Hp.
    apply perform_cache, Hc.
Qed.

(** X9. The handler of a read only reads: when it returns, cache, table,
    bucket and both KV namespaces are as they were; every write of a read
    is made by the promise it leaves behind.  It leaves one only when it
    answers 200 from the bucket after a cache miss. *)
Theorem read_handler_only_reads O env request imageId w :
  let result := run O (handleImage imageId request env) w in
  (cache result.2 = cache w /\ images result.2 = images w
   /\ bucket result.2 = bucket w /\ rate_limit_kv result.2 = rate_limit_kv w
   /\ ai_quota_kv result.2 = ai_quota_kv w)
  /\ (background result.1 <> [] ->
      method request = js "GET"
      /\ cache w !! url request = None
      /\ exists obj, bucket w !! imageId = Some obj
                     /\ status (response result.1) = 200
                     /\ body (response result.1) = BodyBytes (bytes obj)).
Proof.
  unfold handleImage.
  destruct (bool_decide (method request = js "GET")) eqn:Hm; exec_cbn;
    [| split; [repeat split | intros H; contradiction]].
  apply bool_decide_eq_true_1 in Hm.
  destruct (cache w !! url request) as [hit|] eqn:Hc; exec_cbn;
    [split; [repeat split | intros H; contradiction]|].
  exec.
  all: destruct (bucket w !! imageId) as [obj|] eqn:Hb; exec_cbn.
  all: try (split; [repeat split | intros H; contradiction]).
  all: cbn [altTextOf]; try case_match; exec_cbn.
  all: split; [repeat split |]; intros _; split; [exact Hm|]; split; [reflexivity|].
  all: exists obj; split; [reflexivity|]; split; reflexivity.
Qed.

(** X10. A read that cannot get its blob leaves nothing behind: when the
    bucket read is rejected the answer is 503, when the bucket has no object
    under the id it is 404, and in both cases no promise is left, so no
    inference is started and nothing is cached. *)
Theorem read_without_blob O env request imageId w :
  method request = js "GET" ->
  cache w !! url request = None ->
  let result := run O (handleImage imageId request env) w in
  ((R2Get imageId, false) ∈ trace O (handleImage imageId request env) w ->
   result.1 = mkReply (jsonError (js "Storage unavailable") 503) [])
  /\ ((R2Get imageId, true) ∈ trace O (handleImage imageId request env) w ->
      bucket w !! imageId = None ->
      result.1 = mkReply (jsonError (js "Image not found") 404) []).
Proof.
  intros Hm Hc. unfold handleImage.
  rewrite Hm, bool_decide_eq_true_2 by reflexivity.
  exec_cbn. rewrite Hc. exec.
  all: split; try solve [reflexivity | intros _; reflexivity | absurd_trace].
  all: try (intros _ Hb; rewrite Hb; reflexivity).
  all: destruct (bucket w !! imageId) as [obj|] eqn:Hb; exec_cbn;
    cbn [altTextOf]; try case_match; exec_cbn; absurd_trace.
Qed.

Lemma read_without_blob_witness :
  (method read0 = js "GET" /\ cache empty !! url read0 = None)
  /\ (R2Get id0, true) ∈ trace healthy (handleImage id0 read0 env0) empty
  /\ (run healthy (handleImage id0 read0 env0) empty).1
     = mkReply (jsonError (js "Image not found") 404) [].
Proof.
  assert (H1 : method read0 = js "GET") by reflexivity.
  assert (H2 : cache empty !! url read0 = None) by reflexivity.
  assert (H3 : (R2Get id0, true) ∈ trace healthy (handleImage id0 read0 env0) empty)
    by in_run.
  split; [split; assumption|]. split; [exact H3|].
  exact (proj2 (read_without_blob healthy env0 read0 id0 empty H1 H2) H3 eq_refl).
Defined.

(** X11. A read that answers 200, once served to its end, has left an
    entry for its URL in the cache: the response it returned, or that
    response rebuilt around the description.  From then on, in whatever
    world holds that entry, the same request is answered with it after the
    cache lookup alone, with no call to the table, the bucket or the model
    and no promise left. *)
Theorem read_populates_cache O env request imageId w :
  status (response (run O (handleImage imageId request env) w).1) = 200 ->
  exists r,
    rebuilt (response (run O (handleImage imageId request env) w).1) r
    /\ cache (served O (handleImage imageId request env) w) !! url request = Some r
    /\ forall O' w',
         cache w' !! url request = Some r ->
         run O' (handleImage imageId request env) w'
         = (mkReply r [], record (CacheMatch (url request), true) w').
Proof.
  assert (Hhit : method request = js "GET" -> forall r O' w',
            cache w' !! url request = Some r ->
            run O' (handleImage imageId request env) w'
            = (mkReply r [], record (CacheMatch (url request), true) w')).
  { intros Hm r O' w' Hc. unfold handleImage.
    rewrite Hm, bool_decide_eq_true_2 by reflexivity.
    exec_cbn. rewrite Hc. reflexivity. }
  assert (Hmain :
    status (response (run O (handleImage imageId request env) w).1) = 200 ->
    method request = js "GET"
    /\ exists r,
         rebuilt (response (run O (handleImage imageId request env) w).1) r
         /\ cache (served O (handleImage imageId request env) w) !! url request
            = Some r).
  { unfold served, handleImage.
    destruct (bool_decide (method request = js "GET")) eqn:Hm; exec_cbn;
      [| intros H; discriminate H].
    apply bool_decide_eq_true_1 in Hm.
    destruct (cache w !! url request) as [hit|] eqn:Hc; exec_cbn.
    { intros _. split; [exact Hm|]. exists hit. split; [left; reflexivity | exact Hc]. }
    exec.
    all: destruct (bucket w !! imageId) as [obj|] eqn:Hb; exec_cbn;
      try (intros H; discriminate H).
    all: cbn [altTextOf]; try case_match; exec_cbn; intros _; cbn [run_all];
      (split; [exact Hm|]).
    all: try (eexists; split; [left; reflexivity|]; exec_cbn; apply lookup_insert_eq).
    all: match goal with
         | |- context [run ?Or (generateAndCache ?i ?b ?key ?resp ?e) ?w1] =>
             destruct (writes_last_run key (rebuilt resp) Or
                         (generateAndCache i b key resp e) w1
                         (generateAndCache_writes_last i b key resp e))
               as (r & Hr & Hput);
             exists r; split; [exact Hr|]; rewrite Hput; apply lookup_insert_eq
         end. }
  intros Hs. destruct (Hmain Hs) as (Hm & r & Hr & Hc).
  exists r. split; [exact Hr|]. split; [exact Hc | exact (Hhit Hm r)].
Qed.

Lemma read_populates_cache_witness :
  status (response (run healthy (handleImage id0 read0 env0) cold).1) = 200
  /\ exists r,
       cache (served healthy (handleImage id0 read0 env0) cold) !! url read0 = Some r
       /\ run healthy (handleImage id0 read0 env0)
            (served healthy (handleImage id0 read0 env0) cold)
          = (mkReply r [],
             record (CacheMatch (url read0), true)
               (served healthy (handleImage id0 read0 env0) cold)).
Proof.
  assert (H : status (response (run healthy (handleImage id0 read0 env0) cold).1) = 200)
    by (vm_compute; reflexivity).
  split; [exact H|].
  destruct (read_populates_cache healthy env0 read0 id0 cold H) as (r & _ & Hc & Hhit).
  exists r. split; [exact Hc | exact (Hhit healthy _ Hc)].
Defined.

(** X12. A read of an image that has its description, when the metadata
    lookup is not rejected, makes no call of the enrichment, in the handler
    or in the promise it leaves: no lock is read or written, the model is not
    called, the table is not written. *)
Theorem described_read_skips_enrichment O env request imageId w :
  (DbSelectAlt imageId, false) ∉ trace O (handleImage imageId request env) w ->
  truthy (description w imageId) = true ->
  Forall (fun e => is_enrichment e.1 = false)
         (served_trace O (handleImage imageId request env) w).
Proof.
  unfold served_trace, handleImage, description.
  destruct (bool_decide (method request = js "GET")); exec_cbn;
    [| intros _ _; constructor].
  destruct (cache w !! url request) as [hit|]; exec_cbn.
  { intros _ _. repeat constructor. }
  exec.
  all: try solve [intros Hno; exfalso; apply Hno; in_trace].
  all: destruct (bucket w !! imageId) as [obj|]; exec_cbn.
  all: try solve [intros Hno; exfalso; apply Hno; in_trace].
  all: try solve [intros _ _; repeat constructor].
  cbn [altTextOf].
  replace (mjoin (alt_text <$> find (by_id imageId) (images w)))
    with (find (by_id imageId) (images w) ≫= alt_text)
    by (destruct (find _ _); reflexivity).
  intros _ Ht. destruct (find (by_id imageId) (images w) ≫= alt_text) as [[|c d]|];
    try discriminate Ht.
  cbn [nullish truthy]. exec_cbn. cbn [trace_all]. exec_cbn.
  repeat constructor.
Qed.

Lemma described_read_skips_enrichment_witness :
  (((DbSelectAlt id0, false) ∉ trace healthy (handleImage id0 read0 env0) described)
   /\ truthy (description described id0) = true)
  /\ Forall (fun e => is_enrichment e.1 = false)
            (served_trace healthy (handleImage id0 read0 env0) described).
Proof.
  assert (H1 : (DbSelectAlt id0, false)
               ∉ trace healthy (handleImage id0 read0 env0) described).
  { intros Hin. vm_compute in Hin. decide_in Hin. }
  assert (H2 : truthy (description described id0) = true) by (vm_compute; reflexivity).
  split; [split; assumption|].
  exact (described_read_skips_enrichment healthy env0 read0 id0 described H1 H2).
Defined.

(** ** Further properties of the enrichment *)

Lemma find_app_old {A} (f : A -> bool) t x r :
  List.find f t = Some r -> List.find f (t ++ [x]) = Some r.
Proof.
  induction t as [|y t IH]; cbn [app List.find]; [discriminate|].
  destruct (f y); [trivial | exact IH].
Qed.

(** The upsert and the lookup by id: what was written is what is read. *)
Lemma description_upsert now i a t :
  List.find (by_id i) (db_upsert now i a t) ≫= alt_text = Some a.
Proof.
  unfold db_upsert. destruct (existsb (by_id i) t) eqn:E.
  - induction t as [|r t IH]; [discriminate E|].
    cbn [existsb] in E. cbn [fmap list_fmap List.find].
    destruct (by_id i r) eqn:Hr.
    + unfold by_id at 1. cbn [id]. unfold by_id in Hr. rewrite Hr. reflexivity.
    + rewrite Hr. exact (IH E).
  - rewrite (find_app_new _ t _ E); [reflexivity|].
    unfold by_id. apply bool_decide_eq_true_2. reflexivity.
Qed.

Lemma generateAltTextOnce_split imageId imageBytes env :
  generateAltTextOnce imageId imageBytes env
  = let* locked := acquire_lock imageId env in
    if (locked : bool) then Ret tt else infer_and_store imageId imageBytes.
Proof. reflexivity. Qed.

(** A store that the calls of a program leave alone is the same after the
    run. *)
Lemma confined_frame {A X} (P : Call -> Prop) (Q : A -> Prop) (F : World -> X)
    O (p : Prog A) w :
  (forall c w, P c -> F (perform O c w).2 = F w) ->
  confined P Q p -> F (run O p w).2 = F w.
Proof.
  intros HF H. revert w. induction H as [a Ha|c k Hc _ IH]; intros w; [reflexivity|].
  cbn [run]. destruct (perform O c w) as [x w'] eqn:Hp.
  rewrite IH. change w' with (x, w').2. rewrite <- Hp. apply HF, Hc.
Qed.

Lemma acquire_lock_calls imageId env :
  confined (fun c => is_lock_call c = true) (fun _ => True) (acquire_lock imageId env).
Proof. unfold acquire_lock. confine; try exact I; reflexivity. Qed.

Lemma lock_call_frame O c w :
  is_lock_call c = true ->
  cache (perform O c w).2 = cache w /\ images (perform O c w).2 = images w
  /\ bucket (perform O c w).2 = bucket w
  /\ rate_limit_kv (perform O c w).2 = rate_limit_kv w.
Proof.
  destruct c; try discriminate; try destruct ns; try discriminate; intros _;
    unfold perform; cbn [effect]; try case_match; repeat split; reflexivity.
Qed.

Lemma acquire_lock_frame O imageId env w :
  cache (run O (acquire_lock imageId env) w).2 = cache w
  /\ images (run O (acquire_lock imageId env) w).2 = images w
  /\ bucket (run O (acquire_lock imageId env) w).2 = bucket w
  /\ rate_limit_kv (run O (acquire_lock imageId env) w).2 = rate_limit_kv w.
Proof.
  repeat split;
    apply (confined_frame (fun c => is_lock_call c = true) (fun _ => True) _ O _ w);
    try apply acquire_lock_calls; intros c w' Hc; apply (lock_call_frame O c w' Hc).
Qed.

Lemma acquire_lock_trace O imageId env w e :
  e ∈ trace O (acquire_lock imageId env) w -> is_lock_call e.1 = true.
Proof.
  intros Hin.
  destruct (confined_run _ _ O _ w (acquire_lock_calls imageId env)) as [H _].
  rewrite Forall_forall in H. exact (H e Hin).
Qed.

(** What the inference block leaves behind. *)
Lemma infer_outcome O imageId imageBytes w :
  let task := infer_and_store imageId imageBytes in
  (cache (run O task w).2 = cache w /\ bucket (run O task w).2 = bucket w
   /\ rate_limit_kv (run O task w).2 = rate_limit_kv w
   /\ ai_quota_kv (run O task w).2 = ai_quota_kv w)
  /\ (((forall i alt ok, (DbUpsertAlt i alt, ok) ∈ trace O task w -> ok = false)
       /\ images (run O task w).2 = images w)
      \/ (exists alt now,
            sanitiser_output alt
            /\ (AiRun imageBytes, true) ∈ trace O task w
            /\ (DbUpsertAlt imageId alt, true) ∈ trace O task w
            /\ (forall i alt' ok, (DbUpsertAlt i alt', ok) ∈ trace O task w ->
                                  i = imageId /\ alt' = alt /\ ok = true)
            /\ images (run O task w).2 = db_upsert now imageId alt (images w))).
Proof.
  cbv zeta. unfold infer_and_store. exec.
  - split; [repeat split|]. left. split; [|reflexivity].
    intros i alt ok Hin. decide_in Hin.
  - match goal with
    | |- context [sanitiseAltText ?x] => set (alt := sanitiseAltText x)
    end.
    destruct (truthy (Some alt)) eqn:Ht; exec.
    + split; [repeat split|]. left. split; [|reflexivity].
      intros i alt' ok Hin. decide_in Hin. injection Hin as _ _ <-. reflexivity.
    + split; [repeat split|]. right. eexists alt, _.
      split; [split; [apply truthy_nonempty, Ht | eexists; reflexivity]|].
      split; [in_run|]. split; [in_run|]. split; [|reflexivity].
      intros i alt' ok Hin. decide_in Hin. injection Hin as -> -> <-.
      repeat split.
    + split; [repeat split|]. left. split; [|reflexivity].
      intros i alt' ok Hin. decide_in Hin.
Qed.

(** What a run of the enrichment leaves behind. *)
Lemma enrichment_outcome O env imageId imageBytes w :
  let task := generateAltTextOnce imageId imageBytes env in
  (cache (run O task w).2 = cache w /\ bucket (run O task w).2 = bucket w
   /\ rate_limit_kv (run O task w).2 = rate_limit_kv w)
  /\ (((forall i alt ok, (DbUpsertAlt i alt, ok) ∈ trace O task w -> ok = false)
       /\ images (run O task w).2 = images w)
      \/ (exists alt now,
            sanitiser_output alt
            /\ (AiRun imageBytes, true) ∈ trace O task w
            /\ (DbUpsertAlt imageId alt, true) ∈ trace O task w
            /\ (forall i alt' ok, (DbUpsertAlt i alt', ok) ∈ trace O task w ->
                                  i = imageId /\ alt' = alt /\ ok = true)
            /\ images (run O task w).2 = db_upsert now imageId alt (images w))).
Proof.
  cbv zeta. rewrite generateAltTextOnce_split.
  rewrite trace_bind.
  rewrite (run_bind O (acquire_lock imageId env)
             (fun locked : bool => if locked then Ret tt
                                   else infer_and_store imageId imageBytes) w).
  destruct (acquire_lock_frame O imageId env w) as (Hc & Hi & Hb & Hr).
  pose proof (acquire_lock_trace O imageId env w) as Hlock.
  destruct (run O (acquire_lock imageId env) w) as [[|] w1]; cbn [fst snd] in *.
  - cbn [run trace snd]. rewrite app_nil_r.
    split; [repeat split; assumption|]. left. split; [|exact Hi].
    intros i alt ok Hin. apply Hlock in Hin. discriminate Hin.
  - destruct (infer_outcome O imageId imageBytes w1)
      as ((Hc' & Hb' & Hr' & _) & Hcases).
    split; [repeat split; congruence|].
    destruct Hcases as [(Hnone & Hi')|(alt & now & Hs & Hai & Hup & Hone & Hi')].
    + left. split; [|congruence].
      intros i alt ok Hin. apply elem_of_app in Hin as [Hin|Hin];
        [apply Hlock in Hin; discriminate Hin | exact (Hnone _ _ _ Hin)].
    + right. exists alt, now. split; [exact Hs|].
      split; [apply elem_of_app; right; exact Hai|].
      split; [apply elem_of_app; right; exact Hup|].
      split; [|congruence].
      intros i alt' ok Hin. apply elem_of_app in Hin as [Hin|Hin];
        [apply Hlock in Hin; discriminate Hin | exact (Hone _ _ _ Hin)].
Qed.

(** X13. The enrichment of an image writes at most one description, after
    a fulfilled inference only.  It never touches the cache, the bucket or
    the limiter.  Unless the model call is fulfilled the table is as it was;
    and every fulfilled upsert of the run is for the image of the run, with a
    non-empty output of the sanitiser, which a lookup by id then returns. *)
Theorem enrichment_writes_one_description O env imageId imageBytes w :
  let task := generateAltTextOnce imageId imageBytes env in
  (cache (run O task w).2 = cache w /\ bucket (run O task w).2 = bucket w
   /\ rate_limit_kv (run O task w).2 = rate_limit_kv w)
  /\ ((AiRun imageBytes, true) ∉ trace O task w ->
      images (run O task w).2 = images w)
  /\ ((forall i alt, (DbUpsertAlt i alt, true) ∉ trace O task w) ->
      images (run O task w).2 = images w)
  /\ (forall i alt,
        (DbUpsertAlt i alt, true) ∈ trace O task w ->
        i = imageId /\ sanitiser_output alt
        /\ (AiRun imageBytes, true) ∈ trace O task w
        /\ description (run O task w).2 imageId = Some alt).
Proof.
  cbv zeta.
  destruct (enrichment_outcome O env imageId imageBytes w) as [Hframe Hcases].
  split; [exact Hframe|].
  destruct Hcases as [(Hnone & Hi)|(alt & now & Hs & Hai & Hup & Hone & Hi)].
  - split; [intros _; exact Hi|]. split; [intros _; exact Hi|].
    intros i alt Hin. apply Hnone in Hin. discriminate Hin.
  - split; [intros Hno; contradiction|].
    split.
    + intros Hno. exfalso. exact (Hno _ _ Hup).
    + intros i alt' Hin. destruct (Hone _ _ _ Hin) as (-> & -> & _).
      split; [reflexivity|]. split; [exact Hs|]. split; [exact Hai|].
      unfold description. rewrite Hi. apply description_upsert.
Qed.

Lemma infer_and_store_no_lock imageId imageBytes :
  confined (fun c => forall ns key, c <> KvGet ns key
                     /\ forall value ttl, c <> KvPut ns key value ttl)
           (fun _ => True) (infer_and_store imageId imageBytes).
Proof.
  unfold infer_and_store. confine; try exact I; intros; split; intros; discriminate.
Qed.

Lemma infer_trace_no_lock O imageId imageBytes w ns key :
  (forall ok, (KvGet ns key, ok) ∉ trace O (infer_and_store imageId imageBytes) w)
  /\ (forall value ttl ok,
        (KvPut ns key value ttl, ok) ∉ trace O (infer_and_store imageId imageBytes) w).
Proof.
  destruct (confined_run _ _ O _ w (infer_and_store_no_lock imageId imageBytes))
    as [H _].
  rewrite Forall_forall in H.
  split; [intros ok Hin | intros value ttl ok Hin];
    destruct (H _ Hin ns key) as [H1 H2]; [exact (H1 eq_refl) | exact (H2 _ _ eq_refl)].
Qed.

(** A live lock turns the worker away after the one lookup. *)
Lemma locked_out O imageId env w value expiry :
  ai_quota_kv w !! lock_key imageId = Some (value, expiry) ->
  value <> [] ->
  clock O (length (log w)) < expiry ->
  (KvGet AI_QUOTA_ns (lock_key imageId), true)
    ∈ trace O (acquire_lock imageId env) w ->
  run O (acquire_lock imageId env) w
  = (true, record (KvGet AI_QUOTA_ns (lock_key imageId), true) w)
  /\ trace O (acquire_lock imageId env) w
     = [(KvGet AI_QUOTA_ns (lock_key imageId), true)].
Proof.
  intros Hm Hv Hnow. unfold acquire_lock, lock_key in *.
  destruct (AI_QUOTA env); exec; try absurd_trace.
  unfold kv_live. rewrite Hm, (proj2 (N.ltb_lt _ _) Hnow).
  destruct value; [congruence|]. cbn [truthy]. exec_cbn. intros _. split; reflexivity.
Qed.

(** A fulfilled write of the lock leaves it in the namespace for 300 s. *)
Lemma lock_taken O imageId env w :
  (KvPut AI_QUOTA_ns (lock_key imageId) (js "1") AI_DEDUPE_TTL, true)
    ∈ trace O (acquire_lock imageId env) w ->
  exists t,
    ai_quota_kv (run O (acquire_lock imageId env) w).2 !! lock_key imageId
    = Some (js "1", clock O t + 1000 * AI_DEDUPE_TTL).
Proof.
  unfold acquire_lock, lock_key. destruct (AI_QUOTA env); exec; try absurd_trace.
  match goal with
  | |- context [truthy ?v] => destruct (truthy v)
  end; exec; try absurd_trace.
  intros _. eexists. apply lookup_insert_eq.
Qed.

(** X14. The lock deduplicates the inference: once a run of the enrichment
    has had its lock written, any run for the same image that finds that
    entry within its 300 seconds, with its lock lookup fulfilled, stops after
    the lookup: it calls neither the model nor the table.  This holds
    whether or not the first run's inference succeeded. *)
Theorem lock_suppresses_second_inference O env imageId bytes1 bytes2 w w' :
  (forall t t', clock O t < clock O t' + 1000 * AI_DEDUPE_TTL) ->
  (KvPut AI_QUOTA_ns (lock_key imageId) (js "1") AI_DEDUPE_TTL, true)
    ∈ trace O (generateAltTextOnce imageId bytes1 env) w ->
  ai_quota_kv w' !! lock_key imageId
  = ai_quota_kv (run O (generateAltTextOnce imageId bytes1 env) w).2
      !! lock_key imageId ->
  (KvGet AI_QUOTA_ns (lock_key imageId), true)
    ∈ trace O (generateAltTextOnce imageId bytes2 env) w' ->
  trace O (generateAltTextOnce imageId bytes2 env) w'
  = [(KvGet AI_QUOTA_ns (lock_key imageId), true)]
  /\ (run O (generateAltTextOnce imageId bytes2 env) w').2
     = record (KvGet AI_QUOTA_ns (lock_key imageId), true) w'.
Proof.
  intros Hclock Hput Hsame Hget.
  rewrite !generateAltTextOnce_split in *.
  rewrite trace_bind in Hput, Hget. rewrite trace_bind.
  rewrite (run_bind O (acquire_lock imageId env)
             (fun locked : bool => if locked then Ret tt
                                   else infer_and_store imageId bytes1) w) in Hsame.
  rewrite (run_bind O (acquire_lock imageId env)
             (fun locked : bool => if locked then Ret tt
                                   else infer_and_store imageId bytes2) w').
  assert (Hheld : exists t, ai_quota_kv w' !! lock_key imageId
                            = Some (js "1", clock O t + 1000 * AI_DEDUPE_TTL)).
  { rewrite Hsame. apply elem_of_app in Hput as [Hput|Hput].
    - destruct (lock_taken O imageId env w Hput) as [t Ht]. exists t.
      destruct (run O (acquire_lock imageId env) w) as [[|] w1]; cbn [fst snd] in *;
        [exact Ht|].
      destruct (infer_outcome O imageId bytes1 w1) as ((_ & _ & _ & ->) & _).
      exact Ht.
    - exfalso. destruct (run O (acquire_lock imageId env) w) as [[|] w1];
        cbn [fst snd] in Hput; [cbn [trace] in Hput; decide_in Hput|].
      exact (proj2 (infer_trace_no_lock O imageId bytes1 w1 _ _) _ _ _ Hput). }
  destruct Hheld as [t Ht].
  assert (Hget' : (KvGet AI_QUOTA_ns (lock_key imageId), true)
                  ∈ trace O (acquire_lock imageId env) w').
  { apply elem_of_app in Hget as [Hget|Hget]; [exact Hget|]. exfalso.
    destruct (run O (acquire_lock imageId env) w') as [[|] w1];
      cbn [fst snd] in Hget; [cbn [trace] in Hget; decide_in Hget|].
    exact (proj1 (infer_trace_no_lock O imageId bytes2 w1 _ _) _ Hget). }
  destruct (locked_out O imageId env w' (js "1") _ Ht ltac:(discriminate)
              (Hclock _ _) Hget') as [-> ->].
  cbn [fst snd run trace]. split; reflexivity.
Qed.

Lemma lock_suppresses_second_inference_witness :
  let first := generateAltTextOnce id0 (bytes blob0) env0 in
  ((KvPut AI_QUOTA_ns (lock_key id0) (js "1") AI_DEDUPE_TTL, true)
     ∈ trace healthy first cold)
  /\ trace healthy (generateAltTextOnce id0 (bytes blob0) env0) (run healthy first cold).2
     = [(KvGet AI_QUOTA_ns (lock_key id0), true)].
Proof.
  cbv zeta.
  assert (H1 : forall t t', clock healthy t < clock healthy t' + 1000 * AI_DEDUPE_TTL)
    by (intros t t'; reflexivity).
  assert (H2 : (KvPut AI_QUOTA_ns (lock_key id0) (js "1") AI_DEDUPE_TTL, true)
               ∈ trace healthy (generateAltTextOnce id0 (bytes blob0) env0) cold)
    by in_run.
  assert (H3 : (KvGet AI_QUOTA_ns (lock_key id0), true)
               ∈ trace healthy (generateAltTextOnce id0 (bytes blob0) env0)
                   (run healthy (generateAltTextOnce id0 (bytes blob0) env0) cold).2)
    by in_run.
  split; [exact H2|].
  exact (proj1 (lock_suppresses_second_inference healthy env0 id0 (bytes blob0)
                  (bytes blob0) cold _ H1 H2 eq_refl H3)).
Defined.




(** ** Invariants of the table *)

(** A property of the table that every call of a program keeps is kept by
    the run, by the promises, by the request served to its end. *)
Lemma confined_images {A} (P : Call -> Prop) (J : list Row -> Prop) (Q : A -> Prop)
    O (p : Prog A) w :
  (forall c w, P c -> J (images w) -> J (images (effect O c w).2)) ->
  confined P Q p -> J (images w) -> J (images (run O p w).2).
Proof.
  intros HJ H. revert w. induction H as [a Ha|c k Hc _ IH]; intros w Hw; [exact Hw|].
  cbn [run]. unfold perform. cbn [fst snd]. apply IH.
  cbn [record images]. apply HJ; assumption.
Qed.

Lemma run_all_images (P : Call -> Prop) (J : list Row -> Prop) O tasks w :
  (forall c w, P c -> J (images w) -> J (images (effect O c w).2)) ->
  Forall (confined P (fun _ => True)) tasks ->
  J (images w) -> J (images (run_all O tasks w)).
Proof.
  intros HJ H. revert w. induction H as [|p rest Hp _ IH]; intros w Hw; [exact Hw|].
  cbn [run_all]. apply IH. exact (confined_images P J _ O p w HJ Hp Hw).
Qed.

Lemma served_images (P : Call -> Prop) (J : list Row -> Prop) O (p : Prog Reply) w :
  (forall c w, P c -> J (images w) -> J (images (effect O c w).2)) ->
  confined_reply P p -> J (images w) -> J (images (served O p w)).
Proof.
  intros HJ H Hw. unfold served.
  apply (run_all_images P J); [exact HJ | | exact (confined_images P J _ O p w HJ H Hw)].
  exact (proj2 (confined_run _ _ O p w H)).
Qed.

Lemma upsert_keeps_description now i j a t :
  a <> [] ->
  truthy (List.find (by_id i) t ≫= alt_text) = true ->
  truthy (List.find (by_id i) (db_upsert now j a t) ≫= alt_text) = true.
Proof.
  intros Ha H. unfold db_upsert. destruct (existsb (by_id j) t).
  - induction t as [|r t IH]; [discriminate H|].
    cbn [fmap list_fmap List.find] in *.
    destruct (by_id j r) eqn:Hj.
    + unfold by_id at 1. cbn [id]. fold (by_id i r).
      destruct (by_id i r); [|exact (IH H)].
      destruct a; [congruence | reflexivity].
    + destruct (by_id i r); [exact H | exact (IH H)].
  - destruct (find (by_id i) t) as [r|] eqn:E; [|discriminate H].
    rewrite (find_app_old _ t _ r E). exact H.
Qed.

Lemma effect_keeps_description O c w i :
  writes_sanitised c ->
  truthy (List.find (by_id i) (images w) ≫= alt_text) = true ->
  truthy (List.find (by_id i) (images (effect O c w).2) ≫= alt_text) = true.
Proof.
  intros Hc H.
  destruct c; cbn [effect]; repeat case_match; try destruct ns; try exact H;
    cbn [images with_images snd].
  - match goal with
    | E : db_insert _ _ _ _ = Some _ |- _ =>
        unfold db_insert in E; destruct (_ || _); [discriminate E|];
        injection E as <-
    end.
    destruct (find (by_id i) (images w)) as [r|] eqn:E; [|discriminate H].
    rewrite (find_app_old _ _ _ r E). exact H.
  - apply upsert_keeps_description; [apply Hc | exact H].
Qed.

(** X16. A description is never lost: an image that has a description in
    the table still has one after any read and after any upload, each
    served to its end, whatever the platform answers. *)
Theorem described_stays_described O hostname_of env request imageId i w :
  truthy (description w i) = true ->
  truthy (description (served O (handleImage imageId request env) w) i) = true
  /\ truthy (description (served O (handleUpload hostname_of request env) w) i) = true.
Proof.
  intros H. unfold description in *. split.
  - apply (served_images writes_sanitised
             (fun t => truthy (List.find (by_id i) t ≫= alt_text) = true));
      [intros c w'; apply effect_keeps_description
      | apply handleImage_sanitised | exact H].
  - apply (served_images writes_sanitised
             (fun t => truthy (List.find (by_id i) t ≫= alt_text) = true));
      [intros c w'; apply effect_keeps_description
      | apply handleUpload_sanitised | exact H].
Qed.

Lemma described_stays_described_witness :
  truthy (description described id0) = true
  /\ truthy (description (served (failing_at 1) (handleImage id0 read0 env0) described)
               id0) = true.
Proof.
  assert (H : truthy (description described id0) = true) by (vm_compute; reflexivity).
  split; [exact H|].
  exact (proj1 (described_stays_described (failing_at 1) hostname0 env0 read0 id0 id0
                  described H)).
Defined.

Lemma existsb_by_id i t : existsb (by_id i) t = false -> i ∉ id <$> t.
Proof.
  induction t as [|r t IH]; cbn [existsb fmap list_fmap]; intros H.
  - apply not_elem_of_nil.
  - apply orb_false_iff in H as [Hr H]. apply not_elem_of_cons. split; [|exact (IH H)].
    unfold by_id in Hr. apply bool_decide_eq_false in Hr. congruence.
Qed.

Lemma existsb_by_source u t : existsb (by_source u) t = false -> u ∉ omap source_url t.
Proof.
  induction t as [|r t IH]; cbn [existsb omap list_omap]; intros H.
  - apply not_elem_of_nil.
  - apply orb_false_iff in H as [Hr H].
    unfold by_source in Hr. apply bool_decide_eq_false in Hr.
    destruct (source_url r) as [v|]; [|exact (IH H)].
    apply not_elem_of_cons. split; [congruence | exact (IH H)].
Qed.

Lemma NoDup_snoc {A} (l : list A) x : x ∉ l -> NoDup l -> NoDup (l ++ [x]).
Proof.
  intros Hx Hl. apply NoDup_app. split; [exact Hl|]. split.
  - intros y Hy Hin. apply list_elem_of_singleton in Hin. subst y. contradiction.
  - apply NoDup_singleton.
Qed.

Lemma db_insert_keys now i u t t' :
  db_insert now i u t = Some t' -> keys_unique t -> keys_unique t'.
Proof.
  unfold db_insert, keys_unique. intros H [Hid Hsrc].
  destruct (existsb (by_id i) t) eqn:Ei; [discriminate H|].
  destruct (existsb (by_source u) t) eqn:Eu; [discriminate H|].
  injection H as <-. rewrite fmap_app, omap_app. cbn [fmap list_fmap omap list_omap id source_url].
  split; apply NoDup_snoc; auto using existsb_by_id, existsb_by_source.
Qed.

Lemma db_upsert_keys now i a t : keys_unique t -> keys_unique (db_upsert now i a t).
Proof.
  unfold db_upsert, keys_unique. intros [Hid Hsrc].
  destruct (existsb (by_id i) t) eqn:Ei.
  - assert (E1 : id <$> ((fun r => if by_id i r
                             then mkRow (id r) (source_url r) (Some a) (created_at r) (Some now)
                             else r) <$> t) = id <$> t).
    { rewrite <- list_fmap_compose. apply list_fmap_ext. intros _ r _.
      cbn. destruct (by_id i r); reflexivity. }
    assert (E2 : omap source_url ((fun r => if by_id i r
                             then mkRow (id r) (source_url r) (Some a) (created_at r) (Some now)
                             else r) <$> t) = omap source_url t).
    { clear. induction t as [|r t IH]; [reflexivity|].
      rewrite fmap_cons.
      change (omap source_url (?x :: ?l))
        with (match source_url x with
              | Some u => u :: omap source_url l
              | None => omap source_url l
              end).
      rewrite IH. destruct (by_id i r); reflexivity. }
    rewrite E1, E2. split; assumption.
  - rewrite fmap_app, omap_app. cbn [fmap list_fmap omap list_omap id source_url].
    rewrite app_nil_r. split; [|exact Hsrc].
    apply NoDup_snoc; auto using existsb_by_id.
Qed.

Lemma effect_keys O c w :
  keys_unique (images w) -> keys_unique (images (effect O c w).2).
Proof.
  intros H.
  destruct c; cbn [effect]; repeat case_match; try destruct ns; try exact H;
    cbn [images with_images snd].
  - eapply db_insert_keys; eassumption.
  - apply db_upsert_keys, H.
Qed.

Lemma confined_any {A} (p : Prog A) : confined (fun _ => True) (fun _ => True) p.
Proof. induction p; constructor; auto. Qed.

Lemma confined_reply_any (p : Prog Reply) : confined_reply (fun _ => True) p.
Proof.
  unfold confined_reply. induction p as [r|c k IH]; constructor; auto.
  apply Forall_forall. intros task _. apply confined_any.
Qed.

(** X17. The table never holds two records with the same id or the same
    source URL: the insert of an upload fails on a duplicate, and the upsert
    of the enrichment updates the record of its id or adds the one record for
    it.  The property is kept by every read and every upload, each served to
    its end, whatever the platform answers. *)
Theorem keys_stay_unique O hostname_of env request imageId w :
  keys_unique (images w) ->
  keys_unique (images (served O (handleImage imageId request env) w))
  /\ keys_unique (images (served O (handleUpload hostname_of request env) w)).
Proof.
  intros H. split.
  - apply (served_images (fun _ => True) keys_unique);
      [intros c w' _; apply effect_keys | apply confined_reply_any | exact H].
  - apply (served_images (fun _ => True) keys_unique);
      [intros c w' _; apply effect_keys | apply confined_reply_any | exact H].
Qed.

Lemma keys_stay_unique_witness :
  keys_unique (images cold)
  /\ keys_unique (images (served healthy (handleUpload hostname0 upload0 env0) cold)).
Proof.
  assert (H : keys_unique (images cold)).
  { split; cbn; apply NoDup_singleton. }
  split; [exact H|].
  exact (proj2 (keys_stay_unique healthy hostname0 env0 upload0 id0 cold H)).
Defined.

(** ** Further properties of the limiter and of the router *)

Lemma split_at_last_colon (a b d1 d2 : JsString) :
  58 ∉ d1 -> 58 ∉ d2 -> a ++ 58 :: d1 = b ++ 58 :: d2 -> a = b /\ d1 = d2.
Proof.
  intros H1 H2. revert b. induction a as [|x a IH]; intros [|y b] E;
    cbn [app] in E.
  - injection E as ->. split; reflexivity.
  - injection E as <- ->. exfalso. apply H1, elem_of_app. right. apply list_elem_of_here.
  - injection E as -> <-. exfalso. apply H2, elem_of_app. right. apply list_elem_of_here.
  - injection E as -> E. destruct (IH b E) as [-> ->]. split; reflexivity.
Qed.

Lemma String_of_no_colon n : 58 ∉ String_of n.
Proof.
  intros Hin. pose proof (String_of_digits n) as H.
  rewrite Forall_forall in H. specialize (H _ Hin). discriminate H.
Qed.

Lemma rate_key_inj ip1 t1 ip2 t2 :
  rate_key ip1 t1 = rate_key ip2 t2 <-> ip1 = ip2 /\ t1 / 60000 = t2 / 60000.
Proof.
  split; [|intros [-> E]; unfold rate_key; rewrite E; reflexivity].
  unfold rate_key. intros E. apply app_inv_head in E.
  change (js ":" ++ ?s) with (58 :: s) in E.
  apply split_at_last_colon in E as [-> E]; try apply String_of_no_colon.
  split; [reflexivity | exact (String_of_inj _ _ E)].
Qed.

(** X18. Callers and minutes are counted apart.  The key of the limiter
    determines the caller's address and the minute, so no two of them share
    a counter; and a run of the limiter changes no counter but the one of its
    own caller and minute, and nothing outside its namespace. *)
Theorem callers_counted_apart O env request w :
  let result := run O (rateLimit request env) w in
  (forall ip1 t1 ip2 t2,
      rate_key ip1 t1 = rate_key ip2 t2 <-> ip1 = ip2 /\ t1 / 60000 = t2 / 60000)
  /\ (forall ip' t',
        ip' <> cf_connecting_ip request ?? js "anonymous"
        \/ t' / 60000 <> clock O (length (log w)) / 60000 ->
        rate_limit_kv result.2 !! rate_key ip' t' = rate_limit_kv w !! rate_key ip' t')
  /\ (cache result.2 = cache w /\ images result.2 = images w
      /\ bucket result.2 = bucket w /\ ai_quota_kv result.2 = ai_quota_kv w).
Proof.
  cbv zeta. split; [apply rate_key_inj|].
  unfold rateLimit.
  destruct (isApiPath (pathname request)); exec_cbn; [|repeat split].
  destruct (RATE_LIMIT env); exec_cbn; [|repeat split].
  exec; repeat case_match; exec; repeat split.
  all: intros ip' t' Hne; apply lookup_insert_ne; intros Hk.
  all: apply rate_key_inj in Hk as [Hk1 Hk2]; destruct Hne as [Hne|Hne]; congruence.
Qed.

Lemma callers_counted_apart_witness :
  js "198.51.100.9" <> cf_connecting_ip read0 ?? js "anonymous"
  /\ rate_limit_kv (run healthy (rateLimit read0 env0) cold).2
       !! rate_key (js "198.51.100.9") 1000
     = rate_limit_kv cold !! rate_key (js "198.51.100.9") 1000.
Proof.
  assert (H : js "198.51.100.9" <> cf_connecting_ip read0 ?? js "anonymous")
    by (intros E; vm_compute in E; discriminate E).
  split; [exact H|].
  exact (proj1 (proj2 (callers_counted_apart healthy env0 read0 cold)) _ 1000
           (or_introl H)).
Defined.

Lemma matches_length shape s : matches shape s = true -> length s = length shape.
Proof.
  revert s. induction shape as [|f shape IH]; intros [|c s] H; cbn [matches] in H;
    try discriminate H; [reflexivity|].
  apply andb_true_iff in H as [_ H]. cbn [length]. f_equal. exact (IH s H).
Qed.

Lemma UUID_RE_length s : UUID_RE s = true -> length s = 36%nat.
Proof. intros H. apply matches_length in H. exact H. Qed.

Lemma UUID_RE_head s : UUID_RE s = true -> exists c r, s = c :: r /\ c <> 47.
Proof.
  destruct s as [|c r]; [discriminate|]. intros H. exists c, r. split; [reflexivity|].
  unfold UUID_RE in H. cbn [UUID_SHAPE replicate app matches] in H.
  apply andb_true_iff in H as [H _]. intros ->. discriminate H.
Qed.

Lemma drop_slashes_replicate n s :
  drop_slashes (replicate n 47 ++ s) = drop_slashes s.
Proof. induction n as [|n IH]; [reflexivity|]. cbn [replicate app drop_slashes]. exact IH. Qed.

Lemma generateAndCache_keyed imageId imageBytes cacheKey response env :
  UUID_RE imageId = true ->
  confined keyed_by_uuid (fun _ => True)
           (generateAndCache imageId imageBytes cacheKey response env).
Proof.
  intros H. unfold generateAndCache.
  eapply confined_bind with (Q := fun _ => True).
  - unfold generateAltTextOnce. confine; try exact I; exact H.
  - intros _ _. confine; try exact I; exact H.
Qed.

Lemma handleImage_keyed imageId request env :
  UUID_RE imageId = true ->
  confined_reply keyed_by_uuid (handleImage imageId request env).
Proof.
  intros H. unfold confined_reply, handleImage.
  confine; try exact I; try exact H; cbn [background].
  all: repeat first [apply List.Forall_nil | apply List.Forall_cons].
  all: match goal with
       | |- confined _ _ (generateAndCache _ _ _ _ _) =>
           apply generateAndCache_keyed, H
       | _ => confine; exact I
       end.
Qed.

Lemma handleUpload_keyed hostname_of request env :
  confined_reply keyed_by_uuid (handleUpload hostname_of request env).
Proof.
  unfold confined_reply, handleUpload. confine; try exact I; cbn [background].
  all: repeat first [apply List.Forall_nil | apply List.Forall_cons].
  all: unfold rollback; confine; exact I.
Qed.

Section Routes.

Variable hostname_of : JsString -> option JsString.
Variable dashboard : JsString.
Variable handleAudit : Request -> Env -> Prog Reply.

Local Abbreviation route := (router hostname_of dashboard handleAudit).
Local Abbreviation routes := (dispatch hostname_of dashboard handleAudit).

(** X19. A request to a path that is not an API path (the dashboard, the
    icon, the health check, an unknown path, or a preflight to any of them)
    is never counted and never throttled, and touches no store: its only
    possible call is the clock of the health check, it leaves no promise, and
    cache, table, bucket and both KV namespaces are as they were. *)
Theorem other_paths_touch_nothing O env request w :
  isApiPath (pathname request) = false ->
  let result := run O (route request env) w in
  Forall (fun e => e.1 = DateNow) (trace O (route request env) w)
  /\ background result.1 = []
  /\ status (response result.1) ∈ [204; 200; 404]
  /\ (cache result.2 = cache w /\ images result.2 = images w
      /\ bucket result.2 = bucket w /\ rate_limit_kv result.2 = rate_limit_kv w
      /\ ai_quota_kv result.2 = ai_quota_kv w).
Proof.
  intros Hapi. unfold router, rateLimit, dispatch, handleRoot. rewrite Hapi.
  unfold isApiPath in Hapi. apply orb_false_iff in Hapi as [Hapi Haudit].
  apply orb_false_iff in Hapi as [Himg Hup]. rewrite Himg, Hup, Haudit.
  cbn [negb andb].
  repeat (case_bool_decide; exec_cbn);
    (split; [repeat constructor|]); (split; [reflexivity|]);
    (split; [in_run | repeat split]).
Qed.

(** X20. Every call that names an image by its id (a bucket read, a
    lookup or a write of a description), in the handler of a routed request
    or in a promise it leaves, is made with an id of the shape of a UUID,
    hence of 36 code units: the router hands no other id to the read path.
    The listing handler is assumed to do the same. *)
Theorem images_are_keyed_by_uuid O env request w :
  (forall r e, confined_reply keyed_by_uuid (handleAudit r e)) ->
  Forall (fun e => keyed_by_uuid e.1) (served_trace O (route request env) w)
  /\ forall i ok,
       (R2Get i, ok) ∈ served_trace O (route request env) w ->
       UUID_RE i = true /\ length i = 36%nat.
Proof.
  intros Haudit.
  assert (H : confined_reply keyed_by_uuid (route request env)).
  { unfold router, rateLimit, dispatch, handleRoot, confined_reply.
    confine; try exact I; try (constructor; fail).
    all: try apply Haudit.
    all: try apply handleUpload_keyed.
    all: apply handleImage_keyed.
    all: match goal with
         | H : _ && _ = true |- _ => apply andb_true_iff in H as [_ H]; exact H
         end. }
  apply (confined_served _ O _ w) in H. split; [exact H|].
  intros i ok Hin. rewrite Forall_forall in H. specialize (H _ Hin). cbn in H.
  split; [exact H | apply UUID_RE_length, H].
Qed.

(** X21. The router tolerates extra slashes after [/images/]: they are
    dropped before the id is read, so that such a path with a UUID behind the
    slashes is served as that image. *)
Theorem extra_slashes_are_dropped n imageId request env :
  pathname request = js "/images/" ++ replicate n 47 ++ imageId ->
  UUID_RE imageId = true ->
  image_id_of (pathname request) = imageId
  /\ routes request env = handleImage imageId request env.
Proof.
  intros Hp Hu.
  assert (Hs : startsWith (js "/images/") (pathname request) = true).
  { rewrite Hp. change (js "/images/") with [47; 105; 109; 97; 103; 101; 115; 47].
    reflexivity. }
  assert (Hid : image_id_of (pathname request) = imageId).
  { unfold image_id_of. rewrite Hs, Hp.
    change (js "/images/") with [47; 105; 109; 97; 103; 101; 115; 47].
    cbn [app drop drop_slashes N.eqb Pos.eqb]. rewrite drop_slashes_replicate.
    destruct (UUID_RE_head imageId Hu) as (c & r & -> & Hc).
    cbn [drop_slashes]. rewrite (proj2 (N.eqb_neq _ _) Hc). reflexivity. }
  split; [exact Hid|].
  unfold dispatch. rewrite Hid, Hs, Hu. cbn [andb].
  rewrite !bool_decide_eq_false_2; [reflexivity|..];
    rewrite Hp; change (js "/images/") with [47; 105; 109; 97; 103; 101; 115; 47];
    intros E; vm_compute in E; discriminate E.
Qed.

End Routes.

Lemma other_paths_touch_nothing_witness :
  isApiPath (pathname health0) = false
  /\ rate_limit_kv (run healthy (router hostname0 page0 audit0 health0 env0) saturated).2
     = rate_limit_kv saturated
  /\ status (response (run healthy (router hostname0 page0 audit0 health0 env0)
                         saturated).1) = 200.
Proof.
  assert (H : isApiPath (pathname health0) = false) by (vm_compute; reflexivity).
  split; [exact H|].
  destruct (other_paths_touch_nothing hostname0 page0 audit0 healthy env0 health0
              saturated H) as (_ & _ & _ & _ & _ & _ & Hr & _).
  split; [exact Hr | vm_compute; reflexivity].
Defined.

Lemma audit0_keyed request env : confined_reply keyed_by_uuid (audit0 request env).
Proof.
  unfold confined_reply, audit0. confine; try exact I; cbn [background]; constructor.
Qed.

Lemma images_are_keyed_by_uuid_witness :
  (forall r e, confined_reply keyed_by_uuid (audit0 r e))
  /\ Forall (fun e => keyed_by_uuid e.1)
            (served_trace healthy (router hostname0 page0 audit0 read0 env0) cold).
Proof.
  split; [exact audit0_keyed|].
  exact (proj1 (images_are_keyed_by_uuid hostname0 page0 audit0 healthy env0 read0 cold
                  audit0_keyed)).
Defined.

Lemma extra_slashes_are_dropped_witness :
  let request := mkRequest (js "GET") (js "https://img.example/images//" ++ id0)
                   (js "/images//" ++ id0) None None None in
  (pathname request = js "/images/" ++ replicate 1 47 ++ id0 /\ UUID_RE id0 = true)
  /\ dispatch hostname0 page0 audit0 request env0 = handleImage id0 request env0.
Proof.
  cbv zeta.
  assert (H1 : pathname (mkRequest (js "GET") (js "https://img.example/images//" ++ id0)
                          (js "/images//" ++ id0) None None None)
               = js "/images/" ++ replicate 1 47 ++ id0) by reflexivity.
  assert (H2 : UUID_RE id0 = true) by (vm_compute; reflexivity).
  split; [split; assumption|].
  exact (proj2 (extra_slashes_are_dropped hostname0 page0 audit0 1 id0 _ env0 H1 H2)).
Defined.

(** ** The CORS headers and the declared type of an upload *)

Lemma set_all_cors h :
  set_all CORS_HEADERS h
  = <[h_aceh := EXPOSED]>
      (<[h_acah := js "Authorization, Content-Type"]>
         (<[h_acam := js "GET, POST, OPTIONS"]> (<[h_acao := js "*"]> h))).
Proof. reflexivity. Qed.

(** X22. [withCors] sets the four CORS headers and nothing else: status,
    body and every other header of the response are kept, each CORS header
    has the value of [CORS_HEADERS] whatever the response carried before, and
    applying it twice is the same as applying it once. *)
Theorem withCors_sets_cors_only r :
  (status (withCors r) = status r /\ body (withCors r) = body r)
  /\ (forall k v, (k, v) ∈ CORS_HEADERS -> headers (withCors r) !! k = Some v)
  /\ (forall k, k ∉ CORS_HEADERS.*1 -> headers (withCors r) !! k = headers r !! k)
  /\ withCors (withCors r) = withCors r.
Proof.
  split; [split; reflexivity|].
  unfold withCors. cbn [status headers body]. rewrite !set_all_cors.
  split; [|split].
  - intros k v Hin. unfold CORS_HEADERS in Hin.
    decide_in Hin; injection Hin as -> ->.
    + rewrite !lookup_insert_ne by headers_neq. apply lookup_insert_eq.
    + rewrite !lookup_insert_ne by headers_neq. apply lookup_insert_eq.
    + rewrite !lookup_insert_ne by headers_neq. apply lookup_insert_eq.
    + apply lookup_insert_eq.
  - intros k Hk. cbn [fmap list_fmap CORS_HEADERS fst] in Hk.
    rewrite !not_elem_of_cons in Hk. destruct Hk as (H1 & H2 & H3 & H4 & _).
    rewrite !lookup_insert_ne by congruence. reflexivity.
  - f_equal. apply map_eq. intros k. rewrite !lookup_insert.
    repeat case_decide; reflexivity.
Qed.

Lemma lower_range c :
  lower c = c
  \/ (lower c = c + 32 /\ (65 <= c <= 90 \/ (192 <= c <= 222 /\ c <> 215))).
Proof.
  unfold lower.
  destruct (N.leb_spec 65 c), (N.leb_spec c 90), (N.leb_spec 192 c),
    (N.leb_spec c 222), (N.eqb_spec c 215); cbn [andb orb negb];
    first [left; reflexivity | right; split; [reflexivity | lia]].
Qed.

Lemma is_ws_small c : is_ws c = true -> c <= 254 -> c ∈ [9; 10; 11; 12; 13; 32; 160].
Proof.
  unfold is_ws. intros H Hc. apply orb_true_iff in H as [H|H].
  - apply bool_decide_eq_true in H.
    repeat (apply elem_of_cons in H as [H|H]; [subst c; first [solve [in_run] | lia]|]).
    apply elem_of_nil in H. destruct H.
  - apply andb_true_iff in H as [H _]. apply N.leb_le in H. lia.
Qed.

Lemma is_ws_lower c : is_ws (lower c) = is_ws c.
Proof.
  destruct (lower_range c) as [->|[-> Hc]]; [reflexivity|].
  assert (H1 : is_ws (c + 32) = false).
  { destruct (is_ws (c + 32)) eqn:E; [|reflexivity].
    apply is_ws_small in E; [|lia]. decide_in E; lia. }
  assert (H2 : is_ws c = false).
  { destruct (is_ws c) eqn:E; [|reflexivity].
    apply is_ws_small in E; [|lia]. decide_in E; lia. }
  congruence.
Qed.

Lemma lower_idempotent c : lower (lower c) = lower c.
Proof.
  destruct (lower_range c) as [E|[E Hc]]; rewrite E; [exact E|].
  destruct (lower_range (c + 32)) as [E'|[_ Hc']]; [exact E' | lia].
Qed.

Lemma lower_semicolon c : (lower c =? 59) = (c =? 59).
Proof.
  destruct (lower_range c) as [->|[-> Hc]]; [reflexivity|].
  destruct (N.eqb_spec (c + 32) 59), (N.eqb_spec c 59); try reflexivity; lia.
Qed.

Lemma trimStart_lower s : trimStart (lower <$> s) = lower <$> trimStart s.
Proof.
  induction s as [|c s IH]; [reflexivity|].
  rewrite fmap_cons. cbn [trimStart]. rewrite is_ws_lower.
  destruct (is_ws c); [exact IH | reflexivity].
Qed.

Lemma rev_lower s : rev (lower <$> s) = lower <$> rev s.
Proof.
  induction s as [|c s IH]; [reflexivity|].
  rewrite fmap_cons. cbn [rev]. rewrite IH, fmap_app. reflexivity.
Qed.

Lemma trim_lower s : trim (lower <$> s) = lower <$> trim s.
Proof.
  unfold trim, trimEnd.
  rewrite trimStart_lower, rev_lower, trimStart_lower, rev_lower. reflexivity.
Qed.

Lemma before_semicolon_lower s :
  before_semicolon (lower <$> s) = lower <$> before_semicolon s.
Proof.
  induction s as [|c s IH]; [reflexivity|].
  rewrite fmap_cons. cbn [before_semicolon]. rewrite lower_semicolon.
  destruct (c =? 59); [reflexivity|]. rewrite IH. reflexivity.
Qed.

Lemma before_semicolon_app t p : before_semicolon (t ++ 59 :: p) = before_semicolon t.
Proof.
  induction t as [|c t IH]; [reflexivity|].
  cbn [app before_semicolon]. destruct (c =? 59); [reflexivity|].
  rewrite IH. reflexivity.
Qed.

(** X23. The declared type of a fetched image is read without its
    parameters and without regard to case: whatever follows a semicolon is
    ignored, and a Content-Type gives the same type as its lower-case
    form. *)
Theorem declared_type_is_normalised st st' t p data data' :
  mimeTypeOf (mkFetched st (Some (t ++ 59 :: p)) data)
  = mimeTypeOf (mkFetched st' (Some (lower <$> t)) data').
Proof.
  unfold mimeTypeOf. cbn [f_content_type nullish].
  rewrite before_semicolon_app, before_semicolon_lower, trim_lower.
  rewrite <- list_fmap_compose. apply list_fmap_ext. intros _ c _.
  cbn. symmetry. apply lower_idempotent.
Qed.

(** ** Laziness of the ingest, and the limits of the lock *)

(** X24. An upload is lazy: neither its handler nor the promise it may
    leave calls the model, reads or writes the lock, writes a description or
    writes the cache.  The description of an image is generated by its first
    read, never by its ingest. *)
Theorem upload_never_enriches O hostname_of env request w :
  Forall (fun e => is_enrichment e.1 = false /\ is_cache_put e.1 = false)
         (served_trace O (handleUpload hostname_of request env) w).
Proof.
  apply (confined_served
           (fun c => is_enrichment c = false /\ is_cache_put c = false)).
  unfold confined_reply, handleUpload.
  confine; try (split; reflexivity); cbn [background].
  all: repeat first [apply List.Forall_nil | apply List.Forall_cons].
  all: unfold rollback; confine; first [exact I | split; reflexivity].
Qed.

(** X25. The lock is best effort, not atomic: it is read and written by
    two separate calls.  When two runs of the enrichment of one image both
    look the lock up before either has written it, both go on to call the
    model, even though every call to the lock namespace is fulfilled. *)
Theorem lock_is_not_atomic O env imageId bytes1 bytes2 w :
  AI_QUOTA env = true ->
  ai_quota_kv w !! lock_key imageId = None ->
  (forall t, rejects O t = false) ->
  let first := steps O 1 (generateAltTextOnce imageId bytes1 env) w in
  let second := steps O 1 (generateAltTextOnce imageId bytes2 env) first.2 in
  (AiRun bytes1, true) ∈ trace O first.1 second.2
  /\ (AiRun bytes2, true) ∈ trace O second.1 (run O first.1 second.2).2.
Proof.
  intros HAI Hnone Hok. unfold generateAltTextOnce, lock_key in *. rewrite HAI.
  cbv zeta. repeat (progress (exec_cbn; rewrite ?Hok)).
  unfold kv_live. rewrite Hnone. change (truthy None) with false.
  repeat (progress (exec_cbn; rewrite ?Hok)).
  split; solve [in_run].
Qed.

Lemma lock_is_not_atomic_witness :
  (AI_QUOTA env0 = true /\ ai_quota_kv cold !! lock_key id0 = None)
  /\ (AiRun (bytes blob0), true)
       ∈ trace healthy
           (steps healthy 1 (generateAltTextOnce id0 (bytes blob0) env0)
              (steps healthy 1 (generateAltTextOnce id0 (bytes blob0) env0) cold).2).1
           (run healthy
              (steps healthy 1 (generateAltTextOnce id0 (bytes blob0) env0) cold).1
              (steps healthy 1 (generateAltTextOnce id0 (bytes blob0) env0)
                 (steps healthy 1 (generateAltTextOnce id0 (bytes blob0) env0) cold).2).2).2.
Proof.
  assert (H1 : AI_QUOTA env0 = true) by reflexivity.
  assert (H2 : ai_quota_kv cold !! lock_key id0 = None) by reflexivity.
  assert (H3 : forall t, rejects healthy t = false) by reflexivity.
  split; [split; assumption|].
  exact (proj2 (lock_is_not_atomic healthy env0 id0 (bytes blob0) (bytes blob0) cold
                  H1 H2 H3)).
Defined.

Lemma trimStart_length s : (length (trimStart s) <= length s)%nat.
Proof.
  induction s as [|c s IH]; [reflexivity|]. cbn [trimStart].
  destruct (is_ws c); cbn [length]; lia.
Qed.

Lemma trim_length s : (length (trim s) <= length s)%nat.
Proof.
  unfold trim, trimEnd. rewrite length_rev.
  etransitivity; [apply trimStart_length|]. rewrite length_rev.
  apply trimStart_length.
Qed.

Lemma strip_skip_length n :
  forall s, (length s <= n)%nat ->
            (length (strip s) <= length s)%nat /\ (length (skip s) <= length s)%nat.
Proof.
  induction n as [|n IH]; intros [|c r] Hlen; cbn [length] in *;
    try (split; reflexivity); try lia.
  destruct (IH r ltac:(lia)) as [H1 H2].
  cbn [strip skip]. split.
  - destruct ((c =? lt) && has_gt r); cbn [length]; lia.
  - destruct (c =? gt); lia.
Qed.

Lemma escape_length s : (length (escape s) <= 6 * length s)%nat.
Proof.
  induction s as [|c s IH]; [reflexivity|].
  rewrite escape_cons, length_app. cbn [length].
  assert (length (HTML_ESCAPE_MAP c ?? [c]) <= 6)%nat; [|lia].
  unfold HTML_ESCAPE_MAP. repeat case_match; cbn; lia.
Qed.

(** X26. The cut at 500 code units is made on the escaped text, and an
    entity has at most six code units: a raw text of at most 83 code units
    is never cut, its sanitised form is the whole of the escaped text. *)
Theorem short_text_is_not_cut raw :
  (length raw <= 83)%nat ->
  sanitiseAltText raw = escape (strip (trim raw)).
Proof.
  intros H. unfold sanitiseAltText. apply take_ge.
  pose proof (trim_length raw).
  pose proof (proj1 (strip_skip_length _ (trim raw) (le_n _))).
  pose proof (escape_length (strip (trim raw))).
  unfold ALT_TEXT_MAX_LEN. lia.
Qed.

Lemma short_text_is_not_cut_witness :
  (length (js "<b>Tom & Jerry</b>") <= 83)%nat
  /\ sanitiseAltText (js "<b>Tom & Jerry</b>") = js "Tom &amp; Jerry".
Proof.
  assert (H : (length (js "<b>Tom & Jerry</b>") <= 83)%nat) by (vm_compute; lia).
  split; [exact H|].
  rewrite (short_text_is_not_cut _ H). vm_compute. reflexivity.
Defined.

(** ** From the ingest to the first read *)

Lemma imageResponse_content_type imageId obj altText :
  headers (imageResponse imageId obj altText) !! h_content_type
  = Some (contentType obj ?? js "application/octet-stream").
Proof.
  unfold imageResponse. cbn [headers set_all fold_left fst snd].
  do 5 (rewrite lookup_insert_ne by headers_neq).
  apply lookup_insert_eq.
Qed.

Lemma uploaded_inj st i m i' m' : uploaded st i m = uploaded st i' m' -> i = i'.
Proof.
  intros H. apply (f_equal body) in H. unfold uploaded, withCors in H.
  cbn [body] in H. injection H as H _. exact H.
Qed.

Section FirstRead.

Variable hostname_of : JsString -> option JsString.

(** X28. What was uploaded is what is served.  After an upload has
    answered 201 with an id, a read of that id that misses the cache and
    whose bucket read is fulfilled, in any world holding the bucket and the
    table the upload left, answers 200 with the bytes and the declared type
    the upload stored, with the placeholder description and the short-lived
    directive, and leaves one promise: the enrichment of that image over
    those bytes. *)
Theorem uploaded_image_is_served O env upload read imageId w w' :
  response (run O (handleUpload hostname_of upload env) w).1
  = uploaded 201 imageId CREATED ->
  bucket w' = bucket (run O (handleUpload hostname_of upload env) w).2 ->
  images w' = images (run O (handleUpload hostname_of upload env) w).2 ->
  method read = js "GET" ->
  cache w' !! url read = None ->
  (R2Get imageId, true) ∈ trace O (handleImage imageId read env) w' ->
  exists blob mime,
    bucket w' !! imageId = Some blob
    /\ contentType blob = Some mime /\ mime ∈ ALLOWED_TYPES
    /\ N.of_nat (length (bytes blob)) <= MAX_IMAGE_BYTES
    /\ let result := run O (handleImage imageId read env) w' in
       status (response result.1) = 200
       /\ body (response result.1) = BodyBytes (bytes blob)
       /\ headers (response result.1) !! h_content_type = Some mime
       /\ pending_headers (response result.1)
       /\ background result.1
          = [generateAndCache imageId (bytes blob) (url read) (response result.1) env].
Proof.
  intros Hr Hb Hi Hm Hc Hget.
  destruct (upload_outcome hostname_of O env upload w) as [_ [(Hno & _) | Hyes]].
  { exfalso. apply Hno. rewrite Hr. reflexivity. }
  destruct Hyes as (member & imageId' & img & now & now' & _ & _ & _ & _ & _ & _
                    & Hid & Hmime & Hsize & Hi' & Hb' & Hr').
  assert (imageId' = imageId) as ->.
  { rewrite Hr' in Hr. cbn [response] in Hr. exact (uploaded_inj _ _ _ _ _ Hr). }
  rewrite Hb' in Hb. rewrite Hi' in Hi.
  set (blob := mkBlob (f_payload img) (Some (mimeTypeOf img))
                      (Some (trim (member ?? []), now'))) in *.
  assert (Hblob : bucket w' !! imageId = Some blob)
    by (rewrite Hb; apply lookup_insert_eq).
  assert (Hrow : find (by_id imageId) (images w')
                 = Some (mkRow imageId (Some (trim (member ?? []))) None (Some now) None)).
  { rewrite Hi. apply find_app_new; [exact Hid|].
    unfold by_id. apply bool_decide_eq_true_2. reflexivity. }
  exists blob, (mimeTypeOf img).
  split; [exact Hblob|]. split; [reflexivity|]. split; [exact Hmime|].
  split; [exact Hsize|].
  revert Hget.
  unfold handleImage. rewrite Hm, bool_decide_eq_true_2 by reflexivity.
  exec_cbn. rewrite Hc. exec; rewrite ?Hblob, ?Hrow; exec_cbn;
    cbn [altTextOf alt_text mjoin option_join nullish]; exec_cbn;
    try solve [absurd_trace].
  all: intros _; cbn [truthy]; exec_cbn.
  all: split; [reflexivity|]; split; [reflexivity|].
  all: split; [rewrite imageResponse_content_type; reflexivity|].
  all: split; [|reflexivity].
  all: unfold pending_headers;
    rewrite imageResponse_alt, imageResponse_cache_control; split; reflexivity.
Qed.

End FirstRead.

Lemma uploaded_image_is_served_witness :
  let after := (run healthy (handleUpload hostname0 upload0 env0) empty).2 in
  (response (run healthy (handleUpload hostname0 upload0 env0) empty).1
   = uploaded 201 id0 CREATED
   /\ method read0 = js "GET" /\ cache after !! url read0 = None)
  /\ body (response (run healthy (handleImage id0 read0 env0) after).1)
     = BodyBytes [255; 216; 255; 224].
Proof.
  cbv zeta.
  assert (H1 : response (run healthy (handleUpload hostname0 upload0 env0) empty).1
               = uploaded 201 id0 CREATED) by (vm_compute; reflexivity).
  assert (H2 : method read0 = js "GET") by reflexivity.
  assert (H3 : cache (run healthy (handleUpload hostname0 upload0 env0) empty).2
               !! url read0 = None) by reflexivity.
  assert (H4 : (R2Get id0, true)
               ∈ trace healthy (handleImage id0 read0 env0)
                   (run healthy (handleUpload hostname0 upload0 env0) empty).2)
    by in_run.
  split; [repeat split; assumption|].
  destruct (uploaded_image_is_served hostname0 healthy env0 upload0 read0 id0 empty _
              H1 eq_refl eq_refl H2 H3 H4)
    as (blob & mime & Hblob & _ & _ & _ & _ & Hbody & _).
  rewrite Hbody. f_equal.
  assert (E : bucket (run healthy (handleUpload hostname0 upload0 env0) empty).2 !! id0
              = Some (mkBlob [255; 216; 255; 224] (Some (js "image/jpeg"))
                        (Some (src0, 1000)))) by (vm_compute; reflexivity).
  rewrite E in Hblob. injection Hblob as <-. reflexivity.
Defined.
